(** * The resilient verification core of the ParaBank test suite

    A shallow embedding of
      - [utils/ApiHelper.js]     (capture log, response analysis, endpoint probing),
      - [utils/DataGenerator.js] (sequential usernames),
      - [pages/BasePage.js] and [pages/RegisterPage.js] (the registration retry loop),
    followed by the properties that the design document states about them.

    The sources are JavaScript over Playwright.  Pure code becomes Rocq
    functions; code that touches the browser, the network, the clock or the
    random generator is written in a state-and-exception monad over an abstract
    world whose primitive operations are the Playwright and Node calls that the
    sources make. *)

From Stdlib Require Import String Ascii List ZArith NArith Bool Lia Floats.
Import ListNotations.

Set Implicit Arguments.
Set Warnings "-register-all".

Open Scope string_scope.
Open Scope list_scope.

(* ===================================================================== *)
(** * The slice of ECMAScript that the sources rely on                   *)
(* ===================================================================== *)

Module Js.

(** A JavaScript string is a sequence of code units; the model keeps the code
    units below 256, one [ascii] each. *)

(** ** Abrupt completion: a call returns a value or throws. *)

Inductive completion (A : Type) : Type :=
| Normal (a : A)
| Throw (message : string).

Arguments Normal {A} a.
Arguments Throw {A} message.

Definition cbind {A B} (c : completion A) (k : A -> completion B) : completion B :=
  match c with
  | Normal a => k a
  | Throw e => Throw e
  end.

(** ** String.prototype methods *)

(** [s.includes(sub)]: [sub] occurs in [s] at some position. *)
Fixpoint includes (s sub : string) : bool :=
  prefix sub s ||
  match s with
  | EmptyString => false
  | String _ s' => includes s' sub
  end.

(** White space and line terminators below code unit 256: TAB, LF, VT, FF, CR,
    SP and NBSP. *)
Definition is_white_space (c : ascii) : bool :=
  match nat_of_ascii c with
  | 9 | 10 | 11 | 12 | 13 | 32 | 160 => true
  | _ => false
  end.

Fixpoint trimStart (s : string) : string :=
  match s with
  | String c s' => if is_white_space c then trimStart s' else s
  | EmptyString => EmptyString
  end.

(** [trimEnd] keeps a character when it is not white space or when something
    survives after it. *)
Fixpoint trimEnd (s : string) : string :=
  match s with
  | String c s' =>
      match trimEnd s' with
      | EmptyString => if is_white_space c then EmptyString else String c EmptyString
      | t => String c t
      end
  | EmptyString => EmptyString
  end.

Definition trim (s : string) : string := trimEnd (trimStart s).

(** [toLowerCase] on code units below 256: A-Z, and the Latin-1 capitals
    0xC0-0xDE except the multiplication sign 0xD7. *)
Definition lower_char (c : ascii) : ascii :=
  let n := nat_of_ascii c in
  if ((65 <=? n) && (n <=? 90))%nat then ascii_of_nat (n + 32)
  else if ((192 <=? n) && (n <=? 222) && negb (n =? 215))%nat then ascii_of_nat (n + 32)
  else c.

Fixpoint toLowerCase (s : string) : string :=
  match s with
  | String c s' => String (lower_char c) (toLowerCase s')
  | EmptyString => EmptyString
  end.

(** [s.substring(0, n)]. *)
Fixpoint take (n : nat) (s : string) : string :=
  match n, s with
  | S n', String c s' => String c (take n' s')
  | _, _ => EmptyString
  end.

Fixpoint drop (n : nat) (s : string) : string :=
  match n, s with
  | S n', String _ s' => drop n' s'
  | _, _ => s
  end.

(** [s.slice(-n)]: the last [n] code units, the whole string when it is
    shorter. *)
Definition slice_last (n : nat) (s : string) : string :=
  drop (String.length s - n) s.

(** [s.split(sep)] for a non-empty separator.  [cur] holds, reversed, the
    characters of the piece being read. *)
Fixpoint split_from (sep : string) (cur : list ascii) (s : string) : list string :=
  match s with
  | EmptyString => [string_of_list_ascii (rev cur)]
  | String c s' =>
      if prefix sep s
      then string_of_list_ascii (rev cur) ::
           match String.length sep with
           | 1 => split_from sep [] s'
           | _ => split_skip sep (String.length sep - 1) s'
           end
      else split_from sep (c :: cur) s'
  end
with split_skip (sep : string) (k : nat) (s : string) : list string :=
  match s with
  | EmptyString => [EmptyString]
  | String _ s' =>
      match k with
      | 0 | 1 => split_from sep [] s'
      | S k' => split_skip sep k' s'
      end
  end.

Definition split (s sep : string) : list string := split_from sep [] s.

(** ** Decimal and hexadecimal rendering *)

Definition digit_char (d : nat) : ascii := ascii_of_nat (48 + d).

Fixpoint decimal_digits (fuel : nat) (n : N) (acc : string) : string :=
  match fuel with
  | O => acc
  | S fuel' =>
      let acc' := String (digit_char (N.to_nat (n mod 10))) acc in
      if (n <? 10)%N then acc' else decimal_digits fuel' (n / 10) acc'
  end.

(** [String(n)] for a non-negative integer [n]. *)
Definition decimal (n : N) : string :=
  decimal_digits (S (N.to_nat (N.log2 n))) n EmptyString.

Definition decimal_nat (n : nat) : string := decimal (N.of_nat n).

Definition hex_char (d : nat) : ascii :=
  if (d <? 10)%nat then ascii_of_nat (48 + d) else ascii_of_nat (87 + d).

(** [Buffer.toString('hex')]: two lower-case digits per byte. *)
Fixpoint hex (bytes : list Byte.byte) : string :=
  match bytes with
  | [] => EmptyString
  | b :: bs =>
      let n := Byte.to_nat b in
      String (hex_char (n / 16)) (String (hex_char (n mod 16)) (hex bs))
  end.

(** ** Values that [response.json()] can produce *)

(** A number is an IEEE 754 binary64, as in the language.  An object is the
    list of its own properties in enumeration order, with distinct keys. *)
Inductive json : Type :=
| JNull
| JBool (b : bool)
| JNum (n : float)
| JStr (s : string)
| JArr (items : list json)
| JObj (props : list (string * json)).

Definition typeof (v : json) : string :=
  match v with
  | JNull => "object"
  | JBool _ => "boolean"
  | JNum _ => "number"
  | JStr _ => "string"
  | JArr _ => "object"
  | JObj _ => "object"
  end.

Definition isArray (v : json) : bool :=
  match v with JArr _ => true | _ => false end.

Definition isNaN (n : float) : bool := PrimFloat.is_nan n.

(** ToBoolean. *)
Definition truthy (v : json) : bool :=
  match v with
  | JNull => false
  | JBool b => b
  | JNum n => negb (PrimFloat.is_zero n || PrimFloat.is_nan n)
  | JStr s => negb (String.eqb s "")
  | JArr _ => true
  | JObj _ => true
  end.

Fixpoint lookup {A} (k : string) (props : list (string * A)) : option A :=
  match props with
  | [] => None
  | (k', v) :: rest => if String.eqb k k' then Some v else lookup k rest
  end.

Definition has_key {A} (k : string) (props : list (string * A)) : bool :=
  match lookup k props with Some _ => true | None => false end.

Fixpoint chars_from (i : nat) (s : string) : list (string * json) :=
  match s with
  | EmptyString => []
  | String c s' => (decimal_nat i, JStr (String c EmptyString)) :: chars_from (S i) s'
  end.

Fixpoint items_from (i : nat) (l : list json) : list (string * json) :=
  match l with
  | [] => []
  | x :: l' => (decimal_nat i, x) :: items_from (S i) l'
  end.

(** The own enumerable string-keyed properties of ToObject([v]), in the order
    of [Object.keys]; [null] has none and converting it throws. *)
Definition own_props (v : json) : completion (list (string * json)) :=
  match v with
  | JNull => Throw "TypeError: Cannot convert undefined or null to object"
  | JBool _ => Normal []
  | JNum _ => Normal []
  | JStr s => Normal (chars_from 0 s)
  | JArr l => Normal (items_from 0 l)
  | JObj props => Normal props
  end.

(** [v.name] and [v[name]] for a name that no built-in prototype defines
    (every name the sources read: the keys of [v] itself, [amount],
    [accountId], [date], [id], [type], [description], ...).  [None] is
    [undefined]; reading a property of [null] throws. *)
Definition get (v : json) (name : string) : completion (option json) :=
  match v with
  | JNull => Throw "TypeError: Cannot read properties of null"
  | _ => cbind (own_props v) (fun ps => Normal (lookup name ps))
  end.

(** [fields.includes(field)] on an array of strings. *)
Definition array_includes (fields : list string) (field : string) : bool :=
  existsb (String.eqb field) fields.

(** ** What the engine decides and the model takes as given *)

(** [Number::toString] (the shortest decimal that reads back as the same
    binary64) and [Date.parse] (implementation-defined outside the ISO format)
    are functions of their argument alone; the model does not compute them. *)
Record runtime : Type := {
  Number_toString : float -> string;
  Date_parse : string -> float
}.

Section Conversions.

Variable rt : runtime.

(** ToString.  A parsed object has no callable [toString] or [valueOf] of its
    own: with an own [toString] key the conversion finds nothing to call and
    throws, without one it reaches [Object.prototype.toString].  An array goes
    through [join], which renders [null] as the empty string. *)
Fixpoint to_string (v : json) : completion string :=
  match v with
  | JNull => Normal "null"
  | JBool true => Normal "true"
  | JBool false => Normal "false"
  | JNum n => Normal (Number_toString rt n)
  | JStr s => Normal s
  | JArr items =>
      (fix join (l : list json) : completion string :=
         match l with
         | [] => Normal ""
         | [x] =>
             match x with JNull => Normal "" | _ => to_string x end
         | x :: rest =>
             cbind (match x with JNull => Normal "" | _ => to_string x end) (fun s =>
             cbind (join rest) (fun r => Normal (s ++ "," ++ r)%string))
         end) items
  | JObj props =>
      if has_key "toString" props
      then Throw "TypeError: Cannot convert object to primitive value"
      else Normal "[object Object]"
  end.

(** ** Number parsing *)

Definition is_digit (c : ascii) : bool :=
  let n := nat_of_ascii c in ((48 <=? n) && (n <=? 57))%nat.

Definition digit_val (c : ascii) : Z := Z.of_nat (nat_of_ascii c - 48).

(** Reads the longest run of decimal digits: the value they add to [acc], how
    many there were, and what follows. *)
Fixpoint read_digits (acc : Z) (cnt : nat) (s : string) : Z * nat * string :=
  match s with
  | String c s' =>
      if is_digit c then read_digits (10 * acc + digit_val c)%Z (S cnt) s'
      else (acc, cnt, s)
  | EmptyString => (acc, cnt, s)
  end.

(** The Number value for [m * 10^e]: the nearest binary64, ties to even. *)
Definition dec_to_float (neg : bool) (m : Z) (e : Z) : float :=
  match m with
  | Zpos p =>
      SF2Prim
        (if (0 <=? e)%Z
         then binary_normalize prec emax
                (if neg then - (Zpos p * 10 ^ e) else Zpos p * 10 ^ e)%Z 0 neg
         else SFdiv prec emax (S754_finite neg p 0)
                (S754_finite false (Z.to_pos (10 ^ (- e))) 0))
  | _ => if neg then (-0)%float else 0%float
  end.

(** An exponent part, when one is complete: [e] or [E], an optional sign and
    at least one digit.  Anything else is not part of the literal. *)
Definition read_exponent (s : string) : Z :=
  match s with
  | String c s' =>
      if (Ascii.eqb c "e" || Ascii.eqb c "E")%bool then
        match s' with
        | String "+" s'' =>
            let '(v, n, _) := read_digits 0 0 s'' in
            match n with O => 0%Z | _ => v end
        | String "-" s'' =>
            let '(v, n, _) := read_digits 0 0 s'' in
            match n with O => 0%Z | _ => (- v)%Z end
        | _ =>
            let '(v, n, _) := read_digits 0 0 s' in
            match n with O => 0%Z | _ => v end
        end
      else 0%Z
  | EmptyString => 0%Z
  end.

(** The longest prefix that is a StrUnsignedDecimalLiteral. *)
Definition unsigned_literal (neg : bool) (s : string) : float :=
  if prefix "Infinity" s then (if neg then neg_infinity else infinity) else
  let '(ip, n1, r1) := read_digits 0 0 s in
  match r1 with
  | String "." r1' =>
      let '(m, n2, r2) := read_digits ip 0 r1' in
      match n1, n2 with
      | O, O => nan
      | _, _ => dec_to_float neg m (read_exponent r2 - Z.of_nat n2)
      end
  | _ =>
      match n1 with
      | O => nan
      | _ => dec_to_float neg ip (read_exponent r1)
      end
  end.

(** [parseFloat] on a string. *)
Definition parseFloat_string (s : string) : float :=
  match trimStart s with
  | String "+" s' => unsigned_literal false s'
  | String "-" s' => unsigned_literal true s'
  | s' => unsigned_literal false s'
  end.

(** [parseFloat(v)]: ToString first, which may throw. *)
Definition parseFloat (v : json) : completion float :=
  cbind (to_string v) (fun s => Normal (parseFloat_string s)).

Definition hex_digit_val (c : ascii) : option Z :=
  let n := nat_of_ascii c in
  if ((48 <=? n) && (n <=? 57))%nat then Some (Z.of_nat (n - 48))
  else if ((97 <=? n) && (n <=? 102))%nat then Some (Z.of_nat (n - 87))
  else if ((65 <=? n) && (n <=? 70))%nat then Some (Z.of_nat (n - 55))
  else None.

Fixpoint read_hex_digits (acc : Z) (cnt : nat) (s : string) : Z * nat :=
  match s with
  | String c s' =>
      match hex_digit_val c with
      | Some d => read_hex_digits (16 * acc + d)%Z (S cnt) s'
      | None => (acc, cnt)
      end
  | EmptyString => (acc, cnt)
  end.

Definition int_to_float (neg : bool) (m : Z) : float :=
  match m with
  | Zpos _ => SF2Prim (binary_normalize prec emax (if neg then - m else m)%Z 0 neg)
  | _ => if neg then (-0)%float else 0%float
  end.

(** The digits of [parseInt] with no radix argument: base 16 after [0x] or
    [0X], base 10 otherwise. *)
Definition unsigned_integer (neg : bool) (s : string) : float :=
  let hexadecimal (s' : string) :=
    let '(v, n) := read_hex_digits 0 0 s' in
    match n with O => nan | _ => int_to_float neg v end in
  match s with
  | String "0" (String "x" s') => hexadecimal s'
  | String "0" (String "X" s') => hexadecimal s'
  | _ =>
      let '(v, n, _) := read_digits 0 0 s in
      match n with O => nan | _ => int_to_float neg v end
  end.

Definition parseInt_string (s : string) : float :=
  match trimStart s with
  | String "+" s' => unsigned_integer false s'
  | String "-" s' => unsigned_integer true s'
  | s' => unsigned_integer false s'
  end.

(** [parseInt(v)]. *)
Definition parseInt (v : json) : completion float :=
  cbind (to_string v) (fun s => Normal (parseInt_string s)).

End Conversions.

End Js.

(* ===================================================================== *)
(** * Calls that have effects                                            *)
(* ===================================================================== *)

(** An [async] method runs to completion before the next statement of its
    caller ([await] everywhere, one scenario at a time), so it is a function
    from the state before the call to its completion and the state after it.
    A [throw] keeps the state changes made so far. *)

Module Effect.

Import Js.

Section Monad.

Variable St : Type.

Definition M (A : Type) : Type := St -> completion A * St.

Definition ret {A} (a : A) : M A := fun s => (Normal a, s).

Definition throw {A} (message : string) : M A := fun s => (Throw message, s).

Definition bind {A B} (m : M A) (k : A -> M B) : M B :=
  fun s =>
    match m s with
    | (Normal a, s') => k a s'
    | (Throw e, s') => (Throw e, s')
    end.

(** [try { m } catch (error) { handler(error.message) }]. *)
Definition try_catch {A} (m : M A) (handler : string -> M A) : M A :=
  fun s =>
    match m s with
    | (Normal a, s') => (Normal a, s')
    | (Throw e, s') => handler e s'
    end.

(** A completion computed without touching the state. *)
Definition lift {A} (c : completion A) : M A := fun s => (c, s).

Definition read : M St := fun s => (Normal s, s).

Definition modify (f : St -> St) : M unit := fun s => (Normal tt, f s).

End Monad.

Arguments ret {St A} a.
Arguments throw {St A} message.
Arguments lift {St A} c.
Arguments read {St}.
Arguments modify {St} f.

End Effect.

Declare Scope effect_scope.
Delimit Scope effect_scope with effect.
Notation "x <- m ;; k" := (Effect.bind m (fun x => k))
  (at level 61, m at next level, right associativity) : effect_scope.
Notation "m ;;; k" := (Effect.bind m (fun _ => k))
  (at level 61, right associativity) : effect_scope.

(* ===================================================================== *)
(** * utils/ApiHelper.js                                                 *)
(* ===================================================================== *)

Module ApiHelper.

Import Js.

(** ** Records *)

(** An entry of [this.capturedEndpoints]. *)
Record captured : Type := {
  endpoint : string;
  method : string;
  data : json;
  timestamp : Z
}.

(** An entry of [this.jsonResponses]. *)
Record stored_response : Type := {
  r_endpoint : string;
  r_method : string;
  r_response : json;
  r_timestamp : Z
}.

Inductive status : Type := PASS | FAIL | MISSING | INFO.

Definition status_eqb (a b : status) : bool :=
  match a, b with
  | PASS, PASS | FAIL, FAIL | MISSING, MISSING | INFO, INFO => true
  | _, _ => false
  end.

(** An entry of [analysis.validations].  A key that the object literal does
    not have is [None]; so is a [value] that is [undefined]. *)
Record validation : Type := {
  field : string;
  v_status : status;
  value : option json;
  reason : option string;
  v_validation : option string;
  v_type : option string
}.

Record summary : Type := {
  passed : nat;
  failed : nat;
  missing : nat;
  info : nat
}.

(** What [analysis.structure] holds under a key: the [fields] array, a
    [{type, value}] description, or the primitive itself. *)
Inductive structure_entry : Type :=
| Fields (names : list string)
| Described (type : string) (val : option json)
| Primitive (val : json).

Definition structure : Type := list (string * structure_entry).

(** [obj[key] = entry]: the own property is replaced where it stands or added
    last.  Assigning to [__proto__] sets the prototype and adds no property. *)
Fixpoint put (key : string) (entry : structure_entry) (obj : structure) : structure :=
  match obj with
  | [] => [(key, entry)]
  | (k, e) :: rest =>
      if String.eqb k key then (k, entry) :: rest else (k, e) :: put key entry rest
  end.

Definition assign (key : string) (entry : structure_entry) (obj : structure) : structure :=
  if String.eqb key "__proto__" then obj else put key entry obj.

(** The [analysis] object.  Every literal in the file that builds one sets
    [validations]; the other keys are present in some and absent in others. *)
Record analysis : Type := {
  a_endpoint : option string;
  a_type : option string;
  a_isArray : option bool;
  a_structure : option structure;
  validations : list validation;
  a_data : option json;
  arrayLength : option nat;
  a_summary : option summary
}.

(** The object that the three query methods return. *)
Record result : Type := {
  res_status : Z;
  res_data : json;
  res_headers : option (list (string * string));
  res_endpoint : string;
  res_analysis : analysis;
  originalData : option json
}.

(** A Playwright [APIResponse]: [json()] and [text()] read the body that came
    with it and throw when it cannot be read that way. *)
Record response : Type := {
  resp_status : Z;
  resp_headers : list (string * string);
  resp_json : completion json;
  resp_text : completion string
}.

(** ** The world outside the helper *)

(** The calls that leave the process, in the order made. *)
Inductive action : Type :=
| NewContext
| Get (path : string)
| Post (path : string)
| DateNow
| Dispose.

(** What each call answers, given everything done before it. *)
Record world : Type := {
  newContext : list action -> completion unit;
  http_get : list action -> string -> completion response;
  http_post : list action -> string -> completion response;
  Date_now : list action -> Z
}.

(** The fields of the [ApiHelper] instance and the calls made so far. *)
Record state : Type := {
  requestContext : bool;
  capturedEndpoints : list captured;
  jsonResponses : list stored_response;
  history : list action
}.

(** [new ApiHelper()]. *)
Definition constructor (past : list action) : state :=
  {| requestContext := false;
     capturedEndpoints := [];
     jsonResponses := [];
     history := past |}.

Definition M := Effect.M state.

Definition record_action (a : action) (s : state) : state :=
  {| requestContext := requestContext s;
     capturedEndpoints := capturedEndpoints s;
     jsonResponses := jsonResponses s;
     history := history s ++ [a] |}.

Section Methods.

Variable rt : runtime.
Variable w : world.

Local Open Scope effect_scope.

(** One call to the outside: answered from the history, then recorded. *)
Definition call {A} (a : action) (answer : list action -> completion A) : M A :=
  fun s => (answer (history s), record_action a s).

Definition now : M Z :=
  call DateNow (fun past => Normal (Date_now w past)).

(** [init()]. *)
Definition init : M unit :=
  call NewContext (newContext w) ;;;
  Effect.modify (fun s =>
    {| requestContext := true;
       capturedEndpoints := capturedEndpoints s;
       jsonResponses := jsonResponses s;
       history := history s |}).

(** [storeCapturedEndpoint(endpoint, method, data = null)]. *)
Definition storeCapturedEndpoint (endpoint method : string) (data : json) : M unit :=
  t <- now ;;
  Effect.modify (fun s =>
    {| requestContext := requestContext s;
       capturedEndpoints :=
         capturedEndpoints s ++
         [{| endpoint := endpoint; method := method; data := data; timestamp := t |}];
       jsonResponses := jsonResponses s;
       history := history s |}) ;;;
  if truthy data then
    t' <- now ;;
    Effect.modify (fun s =>
      {| requestContext := requestContext s;
         capturedEndpoints := capturedEndpoints s;
         jsonResponses :=
           jsonResponses s ++
           [{| r_endpoint := endpoint; r_method := method;
               r_response := data; r_timestamp := t' |}];
         history := history s |})
  else Effect.ret tt.

(** [getCapturedEndpoints()] and [getJsonResponses()] hand out the arrays. *)
Definition getCapturedEndpoints : M (list captured) :=
  s <- Effect.read ;; Effect.ret (capturedEndpoints s).

Definition getJsonResponses : M (list stored_response) :=
  s <- Effect.read ;; Effect.ret (jsonResponses s).

(** ** [analyzeJsonResponse(jsonData, endpoint = 'unknown')] *)

(** The method never mentions [this]: apart from the console it is a function
    of its arguments.  Console output is left out, except that a template
    literal converts what it prints with ToString, which can throw. *)

Definition typeof_property (v : option json) : string :=
  match v with Some x => typeof x | None => "undefined" end.

Definition print (v : option json) : completion string :=
  match v with Some x => to_string rt x | None => Normal "undefined" end.

(** [fields.forEach(field => { ... analysis.structure[field] = { type, value } })]. *)
Fixpoint describe_fields (props : list (string * json)) (fields : list string)
    (st : structure) : completion structure :=
  match fields with
  | [] => Normal st
  | field :: rest =>
      let value := lookup field props in
      cbind (print value) (fun _ =>
      describe_fields props rest
        (assign field (Described (typeof_property value) value) st))
  end.

Definition present (field : string) (v : option json) : validation :=
  {| field := field; v_status := PASS; value := v;
     reason := None; v_validation := None; v_type := None |}.

Definition absent (field : string) : validation :=
  {| field := field; v_status := MISSING; value := None;
     reason := Some "Field not found in response";
     v_validation := None; v_type := None |}.

(** [expected.forEach(field => { if (fields.includes(field)) ... else ... })]. *)
Definition presence_checks (props : list (string * json)) (fields expected : list string)
    : list validation :=
  map (fun field =>
         if array_includes fields field
         then present field (lookup field props)
         else absent field)
      expected.

Definition transactionFields : list string :=
  ["id"; "accountId"; "amount"; "date"; "type"; "description"].

Definition accountFields : list string :=
  ["id"; "customerId"; "type"; "balance"].

Definition valid (field : string) (v : json) (tag : string) : validation :=
  {| field := field; v_status := PASS; value := Some v;
     reason := None; v_validation := Some tag; v_type := None |}.

Definition invalid (field : string) (v : json) (why : string) : validation :=
  {| field := field; v_status := FAIL; value := Some v;
     reason := Some why; v_validation := None; v_type := None |}.

(** [if (firstItem.amount !== undefined) { ... }]. *)
Definition amount_check (props : list (string * json)) : completion (list validation) :=
  match lookup "amount" props with
  | None => Normal []
  | Some raw =>
      cbind (parseFloat rt raw) (fun amount =>
      if negb (isNaN amount)
      then Normal [valid "amount" (JNum amount) "valid_number"]
      else Normal [invalid "amount" raw "not_a_number"])
  end.

(** [if (firstItem.accountId !== undefined) { ... }]. *)
Definition accountId_check (props : list (string * json)) : completion (list validation) :=
  match lookup "accountId" props with
  | None => Normal []
  | Some raw =>
      cbind (parseInt rt raw) (fun accountId =>
      if negb (isNaN accountId)
      then Normal [valid "accountId" (JNum accountId) "valid_number"]
      else Normal [invalid "accountId" raw "not_a_number"])
  end.

(** [if (firstItem.date !== undefined) { ... }]. *)
Definition date_check (props : list (string * json)) : completion (list validation) :=
  match lookup "date" props with
  | None => Normal []
  | Some dateValue =>
      cbind (to_string rt dateValue) (fun text =>
      if negb (isNaN (Date_parse rt text))
      then Normal [valid "date" dateValue "valid_date"]
      else Normal [invalid "date" dateValue "invalid_date"])
  end.

Definition count (st : status) (vs : list validation) : nat :=
  List.length (filter (fun v => status_eqb (v_status v) st) vs).

(** The four [filter(...).length] of the validation summary. *)
Definition summarize (vs : list validation) : summary :=
  {| passed := count PASS vs;
     failed := count FAIL vs;
     missing := count MISSING vs;
     info := count INFO vs |}.

(** The end of the method: what the branch collected, then the summary. *)
Definition finish (jsonData : json) (endpoint : string) (len : option nat)
    (st : structure) (vs : list validation) : analysis :=
  {| a_endpoint := Some endpoint;
     a_type := Some (typeof jsonData);
     a_isArray := Some (isArray jsonData);
     a_structure := Some st;
     validations := vs;
     a_data := Some jsonData;
     arrayLength := len;
     a_summary := Some (summarize vs) |}.

Definition analyze (jsonData : json) (endpoint : string) : completion analysis :=
  match jsonData with
  | JNull =>
      Normal
        {| a_endpoint := Some endpoint;
           a_type := Some (typeof jsonData);
           a_isArray := Some (isArray jsonData);
           a_structure := Some [];
           validations :=
             [{| field := "response"; v_status := FAIL; value := None;
                 reason := Some "Response is null";
                 v_validation := None; v_type := None |}];
           a_data := Some jsonData;
           arrayLength := None;
           a_summary := None |}
  | JArr items =>
      let len := Some (List.length items) in
      match items with
      | firstItem :: _ =>
          cbind (own_props firstItem) (fun props =>
          let fields := map fst props in
          cbind (describe_fields props fields (assign "fields" (Fields fields) []))
            (fun st =>
          let vs := presence_checks props fields transactionFields in
          cbind (amount_check props) (fun amount =>
          cbind (accountId_check props) (fun accountId =>
          cbind (date_check props) (fun date =>
          Normal (finish jsonData endpoint len st
                    (vs ++ amount ++ accountId ++ date)))))))
      | [] =>
          Normal (finish jsonData endpoint len []
                    [{| field := "array"; v_status := INFO; value := None;
                        reason := Some "Empty array response";
                        v_validation := None; v_type := None |}])
      end
  | JObj props =>
      let fields := map fst props in
      cbind (describe_fields props fields (assign "fields" (Fields fields) []))
        (fun st =>
      Normal (finish jsonData endpoint None st
                (presence_checks props fields accountFields)))
  | _ =>
      Normal (finish jsonData endpoint None
                (assign "value" (Primitive jsonData) [])
                [{| field := "response"; v_status := INFO; value := Some jsonData;
                    reason := None; v_validation := None;
                    v_type := Some (typeof jsonData) |}])
  end.

Definition analyzeJsonResponse (jsonData : json) (endpoint : string) : M analysis :=
  Effect.lift (analyze jsonData endpoint).

(** ** The three query methods *)

Definition ensure_context : M unit :=
  s <- Effect.read ;;
  if requestContext s then Effect.ret tt else init.

Definition get_request (path : string) : M response :=
  call (Get path) (fun past => http_get w past path).

Definition post_request (path : string) : M response :=
  call (Post path) (fun past => http_post w past path).

(** The filter of [findTransactionsByAmount], line by line. *)
Definition matches_topic (accountId : string) (ep : captured) : bool :=
  includes (endpoint ep) "transaction" ||
  includes (endpoint ep) "findtrans" ||
  includes (endpoint ep) "account" && includes (endpoint ep) accountId.

(** 0.01 as a binary64. *)
Definition one_cent : float := 0x1.47ae147ae147bp-7%float.

(** The callback of [jsonData.filter(transaction => ...)]. *)
Definition amount_matches (amount : string) (transaction : json) : completion bool :=
  cbind (get transaction "amount") (fun found =>
  match found with
  | Some raw =>
      if truthy raw then
        cbind (parseFloat rt raw) (fun parsed =>
        let transactionAmount := PrimFloat.abs parsed in
        let searchAmount := parseFloat_string amount in
        Normal (PrimFloat.ltb
                  (PrimFloat.abs (PrimFloat.sub transactionAmount searchAmount))
                  one_cent))
      else Normal false
  | None => Normal false
  end).

Fixpoint filter_throwing (keep : json -> completion bool) (l : list json)
    : completion (list json) :=
  match l with
  | [] => Normal []
  | x :: rest =>
      cbind (keep x) (fun k =>
      cbind (filter_throwing keep rest) (fun kept =>
      Normal (if k then x :: kept else kept)))
  end.

(** [filteredData]: the matching transactions when there are some, the parsed
    body otherwise. *)
Definition filter_by_amount (amount : string) (jsonData : json) : completion json :=
  match jsonData with
  | JArr items =>
      cbind (filter_throwing (amount_matches amount) items) (fun matches =>
      match matches with
      | [] => Normal jsonData
      | _ => Normal (JArr matches)
      end)
  | _ => Normal jsonData
  end.

(** The body of [for (const captured of transactionEndpoints)]: [Some] is a
    [return] out of the method, [None] goes on to the next candidate. *)
Definition try_captured_endpoint (amount : string) (c : captured) : M (option result) :=
  Effect.try_catch
    (response <-
       (if String.eqb (method c) "GET" then get_request (endpoint c)
        else if String.eqb (method c) "POST" then post_request (endpoint c)
        else Effect.throw "TypeError: Cannot read properties of undefined") ;;
     let status := resp_status response in
     if (status =? 200)%Z then
       Effect.try_catch
         (jsonData <- Effect.lift (resp_json response) ;;
          analysis <- analyzeJsonResponse jsonData (endpoint c) ;;
          filteredData <- Effect.lift (filter_by_amount amount jsonData) ;;
          Effect.ret
            (Some {| res_status := status;
                     res_data := filteredData;
                     res_headers := Some (resp_headers response);
                     res_endpoint := endpoint c;
                     res_analysis := analysis;
                     originalData := Some jsonData |}))
         (fun _ =>
            _ <- Effect.lift (resp_text response) ;;
            Effect.ret None)
     else Effect.ret None)
    (fun _ => Effect.ret None).

Fixpoint try_captured (amount : string) (l : list captured) : M (option result) :=
  match l with
  | [] => Effect.ret None
  | c :: rest =>
      r <- try_captured_endpoint amount c ;;
      match r with
      | Some found => Effect.ret (Some found)
      | None => try_captured amount rest
      end
  end.

Definition fallbackEndpoints (accountId : string) : list string :=
  [ "/services/bank/accounts/" ++ accountId ++ "/transactions";
    "/services/bank/transactions/account/" ++ accountId;
    "/activity.htm?id=" ++ accountId;
    "/overview.htm";
    "/findtrans.htm" ]%string.

Definition html_response : validation :=
  {| field := "response"; v_status := INFO; value := None;
     reason := Some "HTML response"; v_validation := None; v_type := None |}.

Definition reference (name : string) (contained : bool) : validation :=
  {| field := name; v_status := if contained then PASS else FAIL;
     value := Some (JBool contained);
     reason := None; v_validation := None; v_type := None |}.

(** The object literal of the HTML branch of [findTransactionsByAmount]. *)
Definition html_analysis (containsAccount containsAmount : bool) : analysis :=
  {| a_endpoint := None;
     a_type := Some "html";
     a_isArray := None;
     a_structure := None;
     validations :=
       [ html_response;
         reference "accountReference" containsAccount;
         reference "amountReference" containsAmount ];
     a_data := None;
     arrayLength := None;
     a_summary := Some {| passed := 0; failed := 0; missing := 0; info := 1 |} |}.

(** The body of [for (const endpoint of fallbackEndpoints)]. *)
Definition try_fallback_endpoint (accountId amount endpoint : string) : M (option result) :=
  Effect.try_catch
    (response <- get_request endpoint ;;
     let status := resp_status response in
     if (status =? 200)%Z then
       Effect.try_catch
         (jsonData <- Effect.lift (resp_json response) ;;
          analysis <- analyzeJsonResponse jsonData endpoint ;;
          Effect.ret
            (Some {| res_status := status;
                     res_data := jsonData;
                     res_headers := Some (resp_headers response);
                     res_endpoint := endpoint;
                     res_analysis := analysis;
                     originalData := None |}))
         (fun _ =>
            textContent <- Effect.lift (resp_text response) ;;
            let containsAccount := includes textContent accountId in
            let containsAmount := includes textContent amount in
            Effect.ret
              (Some {| res_status := status;
                       res_data :=
                         JObj [ ("html", JStr textContent);
                                ("containsAccount", JBool containsAccount);
                                ("containsAmount", JBool containsAmount) ];
                       res_headers := Some (resp_headers response);
                       res_endpoint := endpoint;
                       res_analysis := html_analysis containsAccount containsAmount;
                       originalData := None |}))
     else Effect.ret None)
    (fun _ => Effect.ret None).

Fixpoint try_fallback (accountId amount : string) (l : list string) : M (option result) :=
  match l with
  | [] => Effect.ret None
  | endpoint :: rest =>
      r <- try_fallback_endpoint accountId amount endpoint ;;
      match r with
      | Some found => Effect.ret (Some found)
      | None => try_fallback accountId amount rest
      end
  end.

Definition no_data (why : string) : analysis :=
  {| a_endpoint := None;
     a_type := None;
     a_isArray := None;
     a_structure := None;
     validations :=
       [{| field := "response"; v_status := FAIL; value := None;
           reason := Some why; v_validation := None; v_type := None |}];
     a_data := None;
     arrayLength := None;
     a_summary := Some {| passed := 0; failed := 1; missing := 0; info := 0 |} |}.

(** [findTransactionsByAmount(accountId, amount)]. *)
Definition findTransactionsByAmount (accountId amount : string) : M result :=
  ensure_context ;;;
  s <- Effect.read ;;
  let transactionEndpoints := filter (matches_topic accountId) (capturedEndpoints s) in
  r <- try_captured amount transactionEndpoints ;;
  match r with
  | Some found => Effect.ret found
  | None =>
      r' <- try_fallback accountId amount (fallbackEndpoints accountId) ;;
      match r' with
      | Some found => Effect.ret found
      | None =>
          Effect.ret
            {| res_status := 404;
               res_data := JNull;
               res_headers := Some [];
               res_endpoint := "none";
               res_analysis := no_data "No API endpoints returned data";
               originalData := None |}
      end
  end.

(** [getAccountDetails] and [getTransactions] run the same loop over their own
    endpoint lists; its body, with the HTML branch they share. *)
Definition page_analysis : analysis :=
  {| a_endpoint := None;
     a_type := Some "html";
     a_isArray := None;
     a_structure := None;
     validations := [html_response];
     a_data := None;
     arrayLength := None;
     a_summary := Some {| passed := 0; failed := 0; missing := 0; info := 1 |} |}.

Definition try_endpoint (endpoint : string) : M (option result) :=
  Effect.try_catch
    (response <- get_request endpoint ;;
     let status := resp_status response in
     if (status =? 200)%Z then
       Effect.try_catch
         (jsonData <- Effect.lift (resp_json response) ;;
          analysis <- analyzeJsonResponse jsonData endpoint ;;
          Effect.ret
            (Some {| res_status := status;
                     res_data := jsonData;
                     res_headers := None;
                     res_endpoint := endpoint;
                     res_analysis := analysis;
                     originalData := None |}))
         (fun _ =>
            textContent <- Effect.lift (resp_text response) ;;
            Effect.ret
              (Some {| res_status := status;
                       res_data := JObj [("html", JStr textContent)];
                       res_headers := None;
                       res_endpoint := endpoint;
                       res_analysis := page_analysis;
                       originalData := None |}))
     else Effect.ret None)
    (fun _ => Effect.ret None).

Fixpoint try_endpoints (l : list string) : M (option result) :=
  match l with
  | [] => Effect.ret None
  | endpoint :: rest =>
      r <- try_endpoint endpoint ;;
      match r with
      | Some found => Effect.ret (Some found)
      | None => try_endpoints rest
      end
  end.

(** [getAccountDetails(accountId)]. *)
Definition getAccountDetails (accountId : string) : M result :=
  ensure_context ;;;
  r <- try_endpoints
         [ "/services/bank/accounts/" ++ accountId;
           "/activity.htm?id=" ++ accountId;
           "/overview.htm" ]%string ;;
  match r with
  | Some found => Effect.ret found
  | None =>
      Effect.ret
        {| res_status := 404;
           res_data := JNull;
           res_headers := None;
           res_endpoint := "none";
           res_analysis := no_data "No account endpoints returned data";
           originalData := None |}
  end.

(** [getTransactions(accountId)]. *)
Definition getTransactions (accountId : string) : M result :=
  ensure_context ;;;
  r <- try_endpoints
         [ "/services/bank/accounts/" ++ accountId ++ "/transactions";
           "/activity.htm?id=" ++ accountId;
           "/findtrans.htm" ]%string ;;
  match r with
  | Some found => Effect.ret found
  | None =>
      Effect.ret
        {| res_status := 404;
           res_data := JArr [];
           res_headers := None;
           res_endpoint := "none";
           res_analysis := no_data "No transaction endpoints returned data";
           originalData := None |}
  end.

(** [dispose()]. *)
Definition dispose : M unit :=
  s <- Effect.read ;;
  if requestContext s then call Dispose (fun _ => Normal tt) else Effect.ret tt.

(** ** Every method of the class, as one call *)

Inductive operation : Type :=
| Init
| StoreCapturedEndpoint (endpoint method : string) (data : json)
| GetCapturedEndpoints
| GetJsonResponses
| AnalyzeJsonResponse (jsonData : json) (endpoint : string)
| FindTransactionsByAmount (accountId amount : string)
| GetAccountDetails (accountId : string)
| GetTransactions (accountId : string)
| DisposeContext.

(** The state after the call, whether it returned or threw. *)
Definition after (op : operation) (s : state) : state :=
  match op with
  | Init => snd (init s)
  | StoreCapturedEndpoint endpoint method data =>
      snd (storeCapturedEndpoint endpoint method data s)
  | GetCapturedEndpoints => snd (getCapturedEndpoints s)
  | GetJsonResponses => snd (getJsonResponses s)
  | AnalyzeJsonResponse jsonData endpoint => snd (analyzeJsonResponse jsonData endpoint s)
  | FindTransactionsByAmount accountId amount =>
      snd (findTransactionsByAmount accountId amount s)
  | GetAccountDetails accountId => snd (getAccountDetails accountId s)
  | GetTransactions accountId => snd (getTransactions accountId s)
  | DisposeContext => snd (dispose s)
  end.

(** The requests among the calls made, in order. *)
Definition is_request (a : action) : bool :=
  match a with Get _ | Post _ => true | _ => false end.

Definition requests (past : list action) : list action := filter is_request past.

End Methods.

End ApiHelper.

(* ===================================================================== *)
(** * The browser scenario: page, clock and random generator             *)
(* ===================================================================== *)

Module Scenario.

Import Js.

(** The registration data that the tests pass around. *)
Record UserData : Type := {
  firstName : string;
  lastName : string;
  address : string;
  city : string;
  state : string;
  zipCode : string;
  phoneNumber : string;
  ssn : string;
  username : string;
  password : string
}.

Definition with_username (u : UserData) (name : string) : UserData :=
  {| firstName := firstName u; lastName := lastName u; address := address u;
     city := city u; state := state u; zipCode := zipCode u;
     phoneNumber := phoneNumber u; ssn := ssn u;
     username := name; password := password u |}.

(** The Playwright and Node calls of the page objects, in the order made. *)
Inductive action : Type :=
| Goto (url : string)
| WaitForLoadState
| WaitForTimeout (ms : N)
| WaitForSelector (selector : string) (timeout : N)
| Focus (selector : string)
| Fill (selector value : string)
| TypeText (selector value : string)
| InputValue (selector : string)
| Click (selector : string)
| Url
| TextContent (selector : string)
| DateNow
| Hrtime
| RandomBytes (size : nat).

(** What each call answers, given everything done before it.  A page call
    throws on a timeout or a detached element.  [textContent] answers [null]
    as [None].  [randomBytes] gives the byte at each index of the buffer. *)
Record world : Type := {
  goto : list action -> string -> completion unit;
  waitForLoadState : list action -> completion unit;
  waitForSelector : list action -> string -> N -> completion unit;
  focus : list action -> string -> completion unit;
  fill : list action -> string -> string -> completion unit;
  type : list action -> string -> string -> completion unit;
  inputValue : list action -> string -> completion string;
  click : list action -> string -> completion unit;
  url : list action -> string;
  textContent : list action -> string -> completion (option string);
  hrtime : list action -> N;
  randomBytes : list action -> nat -> Byte.byte
}.

(** The line that opens an iteration of the retry loop, as the console shows
    it: the attempt number and the username it starts with. *)
Record attempt_line : Type := {
  number : nat;
  identity : string
}.

(** The [userData] object lives in the state, since [registerUser] writes to
    the object that its caller holds. *)
Record session : Type := {
  userData : UserData;
  history : list action;
  console : list attempt_line
}.

Definition M := Effect.M session.

Definition record_action (a : action) (s : session) : session :=
  {| userData := userData s; history := history s ++ [a]; console := console s |}.

Definition call {A} (a : action) (answer : list action -> completion A) : M A :=
  fun s => (answer (history s), record_action a s).

(** [await this.page.waitForTimeout(ms)]: time passes. *)
Definition waitForTimeout (ms : N) : M unit :=
  call (WaitForTimeout ms) (fun _ => Normal tt).

Definition set_username (name : string) : M unit :=
  Effect.modify (fun s =>
    {| userData := with_username (userData s) name;
       history := history s; console := console s |}).

Definition log_attempt (attempt : nat) : M unit :=
  Effect.modify (fun s =>
    {| userData := userData s; history := history s;
       console := console s ++
                  [{| number := attempt; identity := username (userData s) |}] |}).

End Scenario.

(* ===================================================================== *)
(** * utils/DataGenerator.js                                             *)
(* ===================================================================== *)

Module DataGenerator.

Import Js Scenario.

Section Methods.

Variable w : world.

Local Open Scope effect_scope.

(** [generateSequentialUsername(attempt = 0)]. *)
Definition generateSequentialUsername (attempt : nat) : M string :=
  _ <- call DateNow (fun _ => Normal tt) ;;
  ns <- call Hrtime (fun past => Normal (hrtime w past)) ;;
  let nanoTime := slice_last 8 (decimal ns) in
  bytes <- call (RandomBytes 6)
             (fun past => Normal (map (randomBytes w past) (seq 0 6))) ;;
  let randomHex := hex bytes in
  let attemptSuffix :=
    if (0 <? attempt)%nat then ("a" ++ decimal_nat attempt)%string else EmptyString in
  Effect.ret (take 32 ("usr" ++ randomHex ++ nanoTime ++ attemptSuffix)%string).

End Methods.

(** The last line of [generateUniqueUsername()]: [u], the first twelve
    hexadecimal digits of a SHA-256 digest, and the last six digits of the
    clock.  The digest is not modelled; its leading bytes are taken as given. *)
Definition unique_username (digest : list Byte.byte) (clock : string) : string :=
  ("u" ++ take 12 (hex digest) ++ clock)%string.

End DataGenerator.

(* ===================================================================== *)
(** * pages/BasePage.js                                                  *)
(* ===================================================================== *)

Module BasePage.

Import Js Scenario.

Definition baseURL : string := "https://parabank.parasoft.com/parabank/".

Section Methods.

Variable w : world.

Local Open Scope effect_scope.

(** [navigateTo(path = '')]. *)
Definition navigateTo (path : string) : M unit :=
  let fullURL := (baseURL ++ path)%string in
  Effect.try_catch
    (call (Goto fullURL) (fun past => goto w past fullURL) ;;;
     call WaitForLoadState (waitForLoadState w) ;;;
     waitForTimeout 1000%N)
    (fun message =>
       Effect.throw ("Failed to navigate to " ++ fullURL ++ ": " ++ message)%string).

(** [page.waitForSelector(selector, { timeout, state: 'visible' })]. *)
Definition waitForVisible (selector : string) (timeout : N) : M unit :=
  call (WaitForSelector selector timeout)
       (fun past => waitForSelector w past selector timeout).

(** [waitForElement(selector, timeout = 15000)]. *)
Definition waitForElement (selector : string) (timeout : N) : M unit :=
  Effect.try_catch
    (waitForVisible selector timeout)
    (fun _ =>
       Effect.throw ("Element not found within " ++ decimal timeout ++ "ms: "
                     ++ selector)%string).

(** [getTextContent(selector)]. *)
Definition getTextContent (selector : string) : M string :=
  Effect.try_catch
    (waitForElement selector 15000%N ;;;
     text <- call (TextContent selector) (fun past => textContent w past selector) ;;
     Effect.ret
       match text with
       | Some t => if String.eqb t EmptyString then EmptyString else trim t
       | None => EmptyString
       end)
    (fun _ => Effect.ret EmptyString).

(** [isElementVisible(selector)]. *)
Definition isElementVisible (selector : string) : M bool :=
  Effect.try_catch
    (waitForVisible selector 3000%N ;;; Effect.ret true)
    (fun _ => Effect.ret false).

End Methods.

End BasePage.

(* ===================================================================== *)
(** * pages/RegisterPage.js                                              *)
(* ===================================================================== *)

Module RegisterPage.

Import Js Scenario BasePage.

(** A CSS selector quotes its strings; the quote character by its code. *)
Definition quoted (text : string) : string :=
  (String (ascii_of_nat 34) text ++ String (ascii_of_nat 34) EmptyString)%string.

Definition has_text (element text : string) : string :=
  (element ++ ":has-text(" ++ quoted text ++ ")")%string.

(** The entries of [this.selectors] that [fillRegistrationForm] reads: an
    [input] by name, then the same element by id. *)
Definition input (name id : string) : string :=
  ("input[name=" ++ quoted name ++ "], #" ++ id)%string.

Definition maxAttempts : nat := 10.

Section Methods.

Variable w : world.

Local Open Scope effect_scope.

(** [navigateToRegister()]: the catch logs and throws the error again. *)
Definition navigateToRegister : M unit :=
  navigateTo w "register.htm" ;;;
  waitForTimeout 2000%N.

(** The loop of [fillFieldRobustly(fieldName, selector, value)] over the
    alternatives of the selector. *)
Fixpoint fill_with (fieldName value : string) (selectors : list string) : M bool :=
  match selectors with
  | [] =>
      Effect.throw ("Could not fill field: " ++ fieldName ++ " with value: " ++ value)%string
  | sel :: rest =>
      filled <-
        Effect.try_catch
          (waitForVisible w sel 10000%N ;;;
           call (Focus sel) (fun past => focus w past sel) ;;;
           waitForTimeout 200%N ;;;
           call (Fill sel EmptyString) (fun past => fill w past sel EmptyString) ;;;
           waitForTimeout 200%N ;;;
           call (TypeText sel value) (fun past => type w past sel value) ;;;
           actualValue <- call (InputValue sel) (fun past => inputValue w past sel) ;;
           Effect.ret (String.eqb actualValue value))
          (fun _ => Effect.ret false) ;;
      if filled then Effect.ret true else fill_with fieldName value rest
  end.

Definition fillFieldRobustly (fieldName selector value : string) : M bool :=
  fill_with fieldName value (split selector ", ").

(** The [fields] array of [fillRegistrationForm]: name, selector, value. *)
Definition fields (u : UserData) : list (string * string * string) :=
  [ ("firstName", input "customer.firstName" "customer\.firstName", firstName u);
    ("lastName", input "customer.lastName" "customer\.lastName", lastName u);
    ("address", input "customer.address.street" "customer\.address\.street", address u);
    ("city", input "customer.address.city" "customer\.address\.city", city u);
    ("state", input "customer.address.state" "customer\.address\.state", state u);
    ("zipCode", input "customer.address.zipCode" "customer\.address\.zipCode", zipCode u);
    ("phoneNumber", input "customer.phoneNumber" "customer\.phoneNumber", phoneNumber u);
    ("ssn", input "customer.ssn" "customer\.ssn", ssn u);
    ("username", input "customer.username" "customer\.username", username u);
    ("password", input "customer.password" "customer\.password", password u);
    ("confirmPassword", input "repeatedPassword" "repeatedPassword", password u) ].

Fixpoint fill_fields (l : list (string * string * string)) : M unit :=
  match l with
  | [] => Effect.ret tt
  | (name, selector, value) :: rest =>
      fillFieldRobustly name selector value ;;;
      fill_fields rest
  end.

(** [fillRegistrationForm(userData)]. *)
Definition fillRegistrationForm (u : UserData) : M unit :=
  fill_fields (fields u).

Definition buttonSelectors : list string :=
  [ ("input[value=" ++ quoted "Register" ++ "]")%string;
    has_text "button" "Register";
    ("input[type=" ++ quoted "submit" ++ "]")%string ].

Fixpoint submit_with (selectors : list string) : M unit :=
  match selectors with
  | [] => Effect.throw "Could not find or click registration submit button"
  | selector :: rest =>
      submitted <-
        Effect.try_catch
          (visible <- isElementVisible w selector ;;
           if visible then
             call (Click selector) (fun past => click w past selector) ;;;
             call WaitForLoadState (waitForLoadState w) ;;;
             waitForTimeout 2000%N ;;;
             Effect.ret true
           else Effect.ret false)
          (fun _ => Effect.ret false) ;;
      if submitted then Effect.ret tt else submit_with rest
  end.

(** [submitRegistration()]. *)
Definition submitRegistration : M unit := submit_with buttonSelectors.

(** [for (const selector of ...) if (await this.isElementVisible(selector)) return true]. *)
Fixpoint any_visible (selectors : list string) : M bool :=
  match selectors with
  | [] => Effect.ret false
  | selector :: rest =>
      visible <- isElementVisible w selector ;;
      if visible then Effect.ret true else any_visible rest
  end.

(** [hasUsernameExistsError()]. *)
Definition hasUsernameExistsError : M bool :=
  any_visible
    [ has_text "td" "This username already exists";
      has_text "span" "This username already exists";
      has_text ".error" "username";
      has_text "*" "username already exists" ].

(** [hasPasswordError()]. *)
Definition hasPasswordError : M bool :=
  any_visible
    [ has_text "td" "Password is required";
      has_text "td" "Password confirmation is required";
      has_text "span" "Password";
      has_text ".error" "password" ].

Definition successSelectors : list string :=
  [ "#rightPanel h1";
    ".title";
    has_text "h1" "Welcome";
    "text=Welcome";
    has_text "*" "successfully";
    has_text "*" "created" ].

Definition accountElements : list string :=
  [ ("a[href*=" ++ quoted "overview" ++ "]")%string;
    ("a[href*=" ++ quoted "transfer" ++ "]")%string;
    ("a[href*=" ++ quoted "billpay" ++ "]")%string;
    has_text "a" "Accounts Overview";
    has_text "a" "Transfer Funds" ].

Fixpoint any_success_message (selectors : list string) : M bool :=
  match selectors with
  | [] => Effect.ret false
  | selector :: rest =>
      found <-
        Effect.try_catch
          (visible <- isElementVisible w selector ;;
           if visible then
             text <- getTextContent w selector ;;
             Effect.ret (includes (toLowerCase text) "welcome" ||
                         includes (toLowerCase text) "successfully" ||
                         includes (toLowerCase text) "created")
           else Effect.ret false)
          (fun _ => Effect.ret false) ;;
      if found then Effect.ret true else any_success_message rest
  end.

(** [verifyRegistrationSuccess(username)]. *)
Definition verifyRegistrationSuccess (username : string) : M bool :=
  Effect.try_catch
    (currentUrl <- call Url (fun past => Normal (url w past)) ;;
     if includes currentUrl "overview" ||
        includes currentUrl "account" ||
        includes currentUrl "welcome"
     then Effect.ret true
     else
       message <- any_success_message successSelectors ;;
       if message then Effect.ret true
       else any_visible accountElements)
    (fun _ => Effect.ret false).

(** ** [registerUser(userData)] *)

(** [userData.username = DataGenerator.generateSequentialUsername(attempt)]. *)
Definition regenerate (attempt : nat) : M unit :=
  name <- DataGenerator.generateSequentialUsername w attempt ;;
  set_username name.

(** One iteration of [for (let attempt = 1; attempt <= maxAttempts; attempt++)]:
    [Some b] is [return b], [None] reaches the next iteration, through
    [continue] or through the end of the body. *)
Definition iteration (attempt : nat) : M (option bool) :=
  Effect.try_catch
    (log_attempt attempt ;;;
     navigateToRegister ;;;
     s <- Effect.read ;;
     fillRegistrationForm (userData s) ;;;
     submitRegistration ;;;
     hasUsernameError <- hasUsernameExistsError ;;
     hasPasswordError <- hasPasswordError ;;
     let check_success : M (option bool) :=
       s' <- Effect.read ;;
       isSuccess <- verifyRegistrationSuccess (username (userData s')) ;;
       if isSuccess then Effect.ret (Some true)
       else
         (if (attempt <? maxAttempts)%nat
          then regenerate attempt ;;; waitForTimeout 1000%N
          else Effect.ret tt) ;;;
         Effect.ret None in
     let check_password : M (option bool) :=
       if hasPasswordError then
         if (attempt <? maxAttempts)%nat then Effect.ret None
         else check_success
       else check_success in
     if hasUsernameError then
       if (attempt <? maxAttempts)%nat then regenerate attempt ;;; Effect.ret None
       else check_password
     else check_password)
    (fun _ =>
       (if (attempt <? maxAttempts)%nat
        then regenerate attempt ;;; waitForTimeout 2000%N
        else Effect.ret tt) ;;;
       Effect.ret None).

(** The iterations from [attempt] on, [remaining] of them; after the last one
    the method logs the failure and returns [false]. *)
Fixpoint attempts_from (remaining attempt : nat) : M bool :=
  match remaining with
  | O => Effect.ret false
  | S remaining' =>
      outcome <- iteration attempt ;;
      match outcome with
      | Some b => Effect.ret b
      | None => attempts_from remaining' (S attempt)
      end
  end.

Definition registerUser : M bool := attempts_from maxAttempts 1.

End Methods.

End RegisterPage.

(* ===================================================================== *)
(** * Concrete runtimes and worlds                                       *)
(* ===================================================================== *)

(** The scenarios below fix what the outside answers, so that the methods can
    be run on them. *)

Module Sample.

Import Js.

(** A runtime for inputs on which the two engine functions are not reached. *)
Definition runtime0 : runtime :=
  {| Number_toString := fun _ => "0";
     Date_parse := fun _ => nan |}.

(** 35.68 as a binary64. *)
Definition n35_68 : float := 0x1.1d70a3d70a3d7p+5%float.

(** No network: every request fails.  The clock counts the calls made. *)
Definition offline : ApiHelper.world :=
  {| ApiHelper.newContext := fun _ => Normal tt;
     ApiHelper.http_get := fun _ _ => Throw "net::ERR_INTERNET_DISCONNECTED";
     ApiHelper.http_post := fun _ _ => Throw "net::ERR_INTERNET_DISCONNECTED";
     ApiHelper.Date_now := fun past => Z.of_nat (List.length past) |}.

Definition page (status : Z) (text : string) : ApiHelper.response :=
  {| ApiHelper.resp_status := status;
     ApiHelper.resp_headers := [("content-type", "text/html")];
     ApiHelper.resp_json := Throw "SyntaxError: Unexpected token < in JSON";
     ApiHelper.resp_text := Normal text |}.

(** A site that answers every GET with the same HTML page. *)
Definition html_site : ApiHelper.world :=
  {| ApiHelper.newContext := fun _ => Normal tt;
     ApiHelper.http_get := fun _ _ => Normal (page 200 "<html>Account 13344</html>");
     ApiHelper.http_post := fun _ _ => Normal (page 200 "<html>Account 13344</html>");
     ApiHelper.Date_now := fun past => Z.of_nat (List.length past) |}.

(** A site where [/api/transactions] answers 201 with the JSON body [[]] and
    every other path answers 404. *)
Definition created : ApiHelper.response :=
  {| ApiHelper.resp_status := 201;
     ApiHelper.resp_headers := [("content-type", "application/json")];
     ApiHelper.resp_json := Normal (JArr []);
     ApiHelper.resp_text := Normal "[]" |}.

Definition created_site : ApiHelper.world :=
  {| ApiHelper.newContext := fun _ => Normal tt;
     ApiHelper.http_get := fun _ path =>
       if String.eqb path "/api/transactions" then Normal created
       else Normal (page 404 "Not Found");
     ApiHelper.http_post := fun _ _ => Normal (page 404 "Not Found");
     ApiHelper.Date_now := fun past => Z.of_nat (List.length past) |}.

(** A site where [/api/transactions] answers 200 with one transaction as JSON
    and every other path answers 404. *)
Definition one_transaction : json :=
  JArr [JObj [("id", JStr "14476"); ("accountId", JStr "13344");
              ("amount", JStr "35.68")]].

Definition json_site : ApiHelper.world :=
  {| ApiHelper.newContext := fun _ => Normal tt;
     ApiHelper.http_get := fun _ path =>
       if String.eqb path "/api/transactions"
       then Normal {| ApiHelper.resp_status := 200;
                      ApiHelper.resp_headers := [("content-type", "application/json")];
                      ApiHelper.resp_json := Normal one_transaction;
                      ApiHelper.resp_text := Normal "[...]" |}
       else Normal (page 404 "Not Found");
     ApiHelper.http_post := fun _ _ => Normal (page 404 "Not Found");
     ApiHelper.Date_now := fun past => Z.of_nat (List.length past) |}.

(** A helper after [init()] and the given captures, each without data. *)
Definition helper_with (w : ApiHelper.world) (captures : list (string * string))
    : ApiHelper.state :=
  fold_left
    (fun s c => snd (ApiHelper.storeCapturedEndpoint w (fst c) (snd c) JNull s))
    captures
    (snd (ApiHelper.init w (ApiHelper.constructor []))).

(** ** Registration pages *)

(** What the browser shows in a field: the text typed into it last. *)
Fixpoint last_typed (past : list Scenario.action) (selector shown : string) : string :=
  match past with
  | [] => shown
  | Scenario.TypeText sel text :: rest =>
      last_typed rest selector (if String.eqb sel selector then text else shown)
  | _ :: rest => last_typed rest selector shown
  end.

(** A registration page whose form works: every [input] is there and keeps
    what is typed; besides them, the elements that [shows] selects are
    visible.  The address stays on [register.htm].  The clock and the random
    generator answer the same every time. *)
Definition form_page (shows : string -> bool) : Scenario.world :=
  {| Scenario.goto := fun _ _ => Normal tt;
     Scenario.waitForLoadState := fun _ => Normal tt;
     Scenario.waitForSelector := fun _ selector _ =>
       if prefix "input[" selector || shows selector then Normal tt
       else Throw "TimeoutError: waiting for selector";
     Scenario.focus := fun _ _ => Normal tt;
     Scenario.fill := fun _ _ _ => Normal tt;
     Scenario.type := fun _ _ _ => Normal tt;
     Scenario.inputValue := fun past selector => Normal (last_typed past selector EmptyString);
     Scenario.click := fun _ _ => Normal tt;
     Scenario.url := fun _ => "https://parabank.parasoft.com/parabank/register.htm";
     Scenario.textContent := fun _ _ => Normal (Some "Signing up is easy!");
     Scenario.hrtime := fun _ => 12345678%N;
     Scenario.randomBytes := fun _ _ => Byte.x00 |}.

Definition conflict_message : string :=
  RegisterPage.has_text "td" "This username already exists".

Definition overview_link : string :=
  ("a[href*=" ++ RegisterPage.quoted "overview" ++ "]")%string.

(** Every submission is answered with the username conflict. *)
Definition conflict_page : Scenario.world :=
  form_page (String.eqb conflict_message).

(** The conflict again, on a page that still shows the link to the accounts
    overview. *)
Definition stale_success_page : Scenario.world :=
  form_page (fun selector =>
    String.eqb conflict_message selector || String.eqb overview_link selector).

(** No conflict, no password error, no sign of success. *)
Definition silent_page : Scenario.world :=
  form_page (fun _ => false).

Definition user (name : string) : Scenario.UserData :=
  {| Scenario.firstName := "Ada";
     Scenario.lastName := "Lovelace";
     Scenario.address := "12 Analytical Row";
     Scenario.city := "London";
     Scenario.state := "LN";
     Scenario.zipCode := "10101";
     Scenario.phoneNumber := "555-010-1815";
     Scenario.ssn := "123-45-6789";
     Scenario.username := name;
     Scenario.password := "TestPass123!" |}.

(** A scenario that starts with the user [name] and nothing done yet. *)
Definition session_of (name : string) : Scenario.session :=
  {| Scenario.userData := user name;
     Scenario.history := [];
     Scenario.console := [] |}.

End Sample.

(* ===================================================================== *)
(** * Properties of the response analysis                                *)
(* ===================================================================== *)

Import Js.

Section Analysis.

Import ApiHelper.

Variable rt : runtime.

(** The checks of a verdict on one field with one status. *)
Definition checks_for (f : string) (st : status) (vs : list validation) : list validation :=
  filter (fun v => String.eqb (field v) f && status_eqb (v_status v) st) vs.

(** The presence check of a field: PASS or MISSING, and not the result of a
    value validation (which carries a [validation] tag when it passes). *)
Definition presence_for (f : string) (vs : list validation) : list validation :=
  filter (fun v => String.eqb (field v) f &&
                   (status_eqb (v_status v) PASS || status_eqb (v_status v) MISSING) &&
                   match v_validation v with None => true | Some _ => false end) vs.

(** ** The summary *)

(** Whenever the analysis reaches its end, the summary counts the checks. *)
Lemma summary_counts_checks jsonData endpoint a :
  jsonData <> JNull ->
  analyze rt jsonData endpoint = Normal a ->
  a_summary a = Some (summarize (validations a)).
Proof.
  intros Hnull H. unfold analyze in H.
  destruct jsonData as [ | b | n | s | items | props ]; try congruence.
  - injection H as <-. reflexivity.
  - injection H as <-. reflexivity.
  - injection H as <-. reflexivity.
  - destruct items as [ | firstItem rest ].
    + injection H as <-. reflexivity.
    + destruct (own_props firstItem) as [ps | ]; simpl in H; [ | discriminate ].
      destruct (describe_fields _ _ _ _) as [st | ]; simpl in H; [ | discriminate ].
      destruct (amount_check _ _) as [am | ]; simpl in H; [ | discriminate ].
      destruct (accountId_check _ _) as [ac | ]; simpl in H; [ | discriminate ].
      destruct (date_check _ _) as [dc | ]; simpl in H; [ | discriminate ].
      injection H as <-. reflexivity.
  - destruct (describe_fields _ _ _ _) as [st | ]; simpl in H; [ | discriminate ].
    injection H as <-. reflexivity.
Qed.

(** ** Presence checks and value validations of an array response *)

Lemma lookup_absent {A} (f : string) (props : list (string * A)) :
  array_includes (map fst props) f = false -> lookup f props = None.
Proof.
  induction props as [ | [k v] rest IH ]; simpl; intros H; [ reflexivity | ].
  apply orb_false_iff in H as [Hk Hrest].
  rewrite Hk. auto.
Qed.

Lemma presence_checks_count props fields expected f :
  List.length (presence_for f (presence_checks props fields expected)) =
  count_occ string_dec expected f.
Proof.
  unfold presence_for, presence_checks.
  induction expected as [ | g rest IH ]; simpl; [ reflexivity | ].
  destruct (array_includes fields g); simpl;
    (destruct (string_dec g f) as [-> | Hne];
     [ rewrite String.eqb_refl; simpl; rewrite IH; reflexivity
     | apply String.eqb_neq in Hne; rewrite Hne; simpl; exact IH ]).
Qed.

Lemma presence_checks_only_pass props fields expected f :
  array_includes fields f = true ->
  checks_for f MISSING (presence_checks props fields expected) = [].
Proof.
  intros Hf. unfold checks_for, presence_checks.
  induction expected as [ | g rest IH ]; simpl; [ reflexivity | ].
  destruct (String.eqb g f) eqn:Hg.
  - apply String.eqb_eq in Hg. subst g. rewrite Hf. simpl.
    rewrite String.eqb_refl. simpl. exact IH.
  - destruct (array_includes fields g); simpl; rewrite Hg; simpl; exact IH.
Qed.

Lemma presence_checks_only_missing props fields expected f :
  array_includes fields f = false ->
  checks_for f PASS (presence_checks props fields expected) = [].
Proof.
  intros Hf. unfold checks_for, presence_checks.
  induction expected as [ | g rest IH ]; simpl; [ reflexivity | ].
  destruct (String.eqb g f) eqn:Hg.
  - apply String.eqb_eq in Hg. subst g. rewrite Hf. simpl.
    rewrite String.eqb_refl. simpl. exact IH.
  - destruct (array_includes fields g); simpl; rewrite Hg; simpl; exact IH.
Qed.

(** What a value validation can add: nothing when the field is absent, else
    one check on that field, a tagged PASS or a FAIL. *)
Definition validates (name : string) (props : list (string * json))
    (l : list validation) : Prop :=
  match lookup name props with
  | None => l = []
  | Some _ =>
      exists v, l = [v] /\ field v = name /\
        ((v_status v = PASS /\ v_validation v <> None) \/ v_status v = FAIL)
  end.

Lemma amount_check_validates props l :
  amount_check rt props = Normal l -> validates "amount" props l.
Proof.
  unfold amount_check, validates.
  destruct (lookup "amount" props) as [raw | ]; [ | congruence ].
  destruct (parseFloat rt raw) as [x | ]; simpl; [ | discriminate ].
  destruct (negb (isNaN x)); intros [= <-]; eexists; split; try reflexivity;
    simpl; split; try reflexivity; [ left | right ]; split; congruence.
Qed.

Lemma accountId_check_validates props l :
  accountId_check rt props = Normal l -> validates "accountId" props l.
Proof.
  unfold accountId_check, validates.
  destruct (lookup "accountId" props) as [raw | ]; [ | congruence ].
  destruct (parseInt rt raw) as [x | ]; simpl; [ | discriminate ].
  destruct (negb (isNaN x)); intros [= <-]; eexists; split; try reflexivity;
    simpl; split; try reflexivity; [ left | right ]; split; congruence.
Qed.

Lemma date_check_validates props l :
  date_check rt props = Normal l -> validates "date" props l.
Proof.
  unfold date_check, validates.
  destruct (lookup "date" props) as [raw | ]; [ | congruence ].
  destruct (to_string rt raw) as [x | ]; simpl; [ | discriminate ].
  destruct (negb (isNaN (Date_parse rt x))); intros [= <-]; eexists; split;
    try reflexivity; simpl; split; try reflexivity; [ left | right ]; split; congruence.
Qed.

Lemma validates_no_presence name props l f :
  validates name props l -> presence_for f l = [].
Proof.
  unfold validates. destruct (lookup name props).
  - intros (v & -> & _ & [[Hp Ht] | Hf]); unfold presence_for; simpl.
    + destruct (v_validation v); [ | congruence ].
      rewrite andb_false_r. reflexivity.
    + rewrite Hf. simpl. rewrite andb_false_r. reflexivity.
  - intros ->. reflexivity.
Qed.

Lemma validates_never_missing name props l f :
  validates name props l -> checks_for f MISSING l = [].
Proof.
  unfold validates. destruct (lookup name props).
  - intros (v & -> & _ & [[Hp _] | Hf]); unfold checks_for; simpl;
      [ rewrite Hp | rewrite Hf ]; simpl; rewrite andb_false_r; reflexivity.
  - intros ->. reflexivity.
Qed.

Lemma validates_absent name props l f :
  validates name props l -> lookup f props = None -> checks_for f PASS l = [].
Proof.
  unfold validates. intros H Hf.
  destruct (lookup name props) eqn:Hname.
  - destruct H as (v & -> & Hv & _). unfold checks_for. simpl.
    destruct (String.eqb (field v) f) eqn:E; [ | reflexivity ].
    apply String.eqb_eq in E. congruence.
  - subst l. reflexivity.
Qed.

Lemma checks_for_app f st l1 l2 :
  checks_for f st (l1 ++ l2) = checks_for f st l1 ++ checks_for f st l2.
Proof. apply filter_app. Qed.

Lemma presence_for_app f l1 l2 :
  presence_for f (l1 ++ l2) = presence_for f l1 ++ presence_for f l2.
Proof. apply filter_app. Qed.

(** The checks of an analysed non-empty array: the presence checks of the six
    transaction fields against the first item, then the value validations. *)
Lemma array_validations firstItem rest endpoint a :
  analyze rt (JArr (firstItem :: rest)) endpoint = Normal a ->
  exists props amount accountId date,
    own_props firstItem = Normal props /\
    validates "amount" props amount /\
    validates "accountId" props accountId /\
    validates "date" props date /\
    validations a =
      presence_checks props (map fst props) transactionFields
      ++ amount ++ accountId ++ date.
Proof.
  unfold analyze. intros H.
  destruct (own_props firstItem) as [props | ]; simpl in H; [ | discriminate ].
  destruct (describe_fields _ _ _ _) as [st | ]; simpl in H; [ | discriminate ].
  destruct (amount_check _ _) as [am | ] eqn:Ham; simpl in H; [ | discriminate ].
  destruct (accountId_check _ _) as [ac | ] eqn:Hac; simpl in H; [ | discriminate ].
  destruct (date_check _ _) as [dc | ] eqn:Hdc; simpl in H; [ | discriminate ].
  injection H as <-.
  exists props, am, ac, dc.
  repeat split;
    auto using amount_check_validates, accountId_check_validates, date_check_validates.
Qed.

(** C4 (as amended).  For an analysed array with a first element, each of the
    six transaction fields has exactly one presence check in the verdict, PASS
    or MISSING; a value validation of [amount], [accountId] or [date] may add
    a further, tagged PASS (or a FAIL) on the same field; and no field has both
    a PASS and a MISSING check. *)
Theorem schema_field_presence_checked_once firstItem rest endpoint a f :
  analyze rt (JArr (firstItem :: rest)) endpoint = Normal a ->
  In f transactionFields ->
  List.length (presence_for f (validations a)) = 1 /\
  (checks_for f PASS (validations a) = [] \/ checks_for f MISSING (validations a) = []).
Proof.
  intros Ha Hf.
  destruct (@array_validations _ _ _ _ Ha) as (props & am & ac & dc & _ & Ham & Hac & Hdc & ->).
  split.
  - rewrite !presence_for_app, !length_app, presence_checks_count.
    rewrite (@validates_no_presence _ _ _ f Ham), (@validates_no_presence _ _ _ f Hac),
      (@validates_no_presence _ _ _ f Hdc). simpl.
    unfold transactionFields in Hf. simpl in Hf.
    repeat (destruct Hf as [<- | Hf]; [ reflexivity | ]). contradiction.
  - rewrite !checks_for_app.
    destruct (array_includes (map fst props) f) eqn:Hin.
    + right.
      rewrite (@presence_checks_only_pass props _ _ _ Hin).
      rewrite (@validates_never_missing _ _ _ f Ham), (@validates_never_missing _ _ _ f Hac),
        (@validates_never_missing _ _ _ f Hdc). reflexivity.
    + left.
      rewrite (@presence_checks_only_missing props _ _ _ Hin).
      pose proof (@lookup_absent _ _ _ Hin) as Habs.
      rewrite (@validates_absent _ _ _ _ Ham Habs), (@validates_absent _ _ _ _ Hac Habs),
        (@validates_absent _ _ _ _ Hdc Habs). reflexivity.
Qed.

(** C8.  Analysing the same input again, after any other calls on the helper,
    gives the same completion (the same verdict, or the same error); the
    analysis leaves the helper as it found it. *)
Theorem analysis_is_repeatable (w : world) jsonData endpoint (between : list operation) s :
  let first := analyzeJsonResponse rt jsonData endpoint s in
  let later := fold_left (fun st op => after rt w op st) between (snd first) in
  fst (analyzeJsonResponse rt jsonData endpoint later) = fst first /\
  snd first = s /\
  snd (analyzeJsonResponse rt jsonData endpoint later) = later.
Proof. cbv zeta. unfold analyzeJsonResponse, Effect.lift. simpl. auto. Qed.

(** C9 (as amended).  The amount validation of lines 143-152: ["35.68"] passes
    with the parsed number 35.68, ["abc"] fails with the reason [not_a_number];
    both checks are in the verdict of an array whose first element holds that
    amount. *)
Theorem amount_validation_examples endpoint :
  let pass := {| field := "amount"; v_status := PASS;
                 value := Some (JNum Sample.n35_68); reason := None;
                 v_validation := Some "valid_number"; v_type := None |} in
  let fail := {| field := "amount"; v_status := FAIL;
                 value := Some (JStr "abc"); reason := Some "not_a_number";
                 v_validation := None; v_type := None |} in
  amount_check rt [("amount", JStr "35.68")] = Normal [pass] /\
  amount_check rt [("amount", JStr "abc")] = Normal [fail] /\
  (exists a, analyze rt (JArr [JObj [("amount", JStr "35.68")]]) endpoint = Normal a /\
             In pass (validations a)) /\
  (exists a, analyze rt (JArr [JObj [("amount", JStr "abc")]]) endpoint = Normal a /\
             In fail (validations a)).
Proof.
  cbv zeta. repeat split.
  - eexists. split; [ reflexivity | ]. simpl. tauto.
  - eexists. split; [ reflexivity | ]. simpl. tauto.
Qed.

End Analysis.

(** C4, as stated, fails: on [[{"amount": "35.68"}]] the verdict holds two PASS
    checks on [amount], the presence check and the value validation. *)
Lemma amount_checked_twice :
  exists a,
    ApiHelper.analyze Sample.runtime0 (JArr [JObj [("amount", JStr "35.68")]]) "unknown"
      = Normal a /\
    List.length (checks_for "amount" ApiHelper.PASS (ApiHelper.validations a)) +
    List.length (checks_for "amount" ApiHelper.MISSING (ApiHelper.validations a)) = 2.
Proof. eexists. split; reflexivity. Qed.

Lemma schema_field_presence_checked_once_witness :
  exists a,
    ApiHelper.analyze Sample.runtime0 (JArr [JObj [("amount", JStr "35.68")]]) "unknown"
      = Normal a /\
    List.length (presence_for "amount" (ApiHelper.validations a)) = 1 /\
    (checks_for "amount" ApiHelper.PASS (ApiHelper.validations a) = [] \/
     checks_for "amount" ApiHelper.MISSING (ApiHelper.validations a) = []).
Proof.
  eexists. split; [ reflexivity | ].
  apply (@schema_field_presence_checked_once Sample.runtime0
           (JObj [("amount", JStr "35.68")]) [] "unknown").
  - reflexivity.
  - simpl. tauto.
Defined.

(** C9, as stated, fails on the reason text: the check carries
    [not_a_number], with underscores. *)
Lemma amount_failure_reason_text :
  exists v,
    ApiHelper.amount_check Sample.runtime0 [("amount", JStr "abc")] = Normal [v] /\
    ApiHelper.v_status v = ApiHelper.FAIL /\
    ApiHelper.reason v <> Some "not a number".
Proof. eexists. repeat split. simpl. discriminate. Qed.

(* ===================================================================== *)
(** * Properties of the capture log                                      *)
(* ===================================================================== *)

Section CaptureLog.

Import ApiHelper.

Variable rt : runtime.
Variable w : world.

(** A call that leaves both logs as they are. *)
Definition keeps_logs {A} (m : M A) : Prop :=
  forall s,
    capturedEndpoints (snd (m s)) = capturedEndpoints s /\
    jsonResponses (snd (m s)) = jsonResponses s.

Lemma keeps_ret {A} (a : A) : keeps_logs (Effect.ret a).
Proof. intros s. split; reflexivity. Qed.

Lemma keeps_throw {A} e : keeps_logs (@Effect.throw state A e).
Proof. intros s. split; reflexivity. Qed.

Lemma keeps_lift {A} (c : completion A) : keeps_logs (Effect.lift c).
Proof. intros s. split; reflexivity. Qed.

Lemma keeps_read : keeps_logs (@Effect.read state).
Proof. intros s. split; reflexivity. Qed.

Lemma keeps_call {A} a (answer : list action -> completion A) :
  keeps_logs (call a answer).
Proof. intros s. split; reflexivity. Qed.

Lemma keeps_bind {A B} (m : M A) (k : A -> M B) :
  keeps_logs m -> (forall a, keeps_logs (k a)) -> keeps_logs (Effect.bind m k).
Proof.
  intros Hm Hk s. unfold Effect.bind.
  specialize (Hm s). destruct (m s) as [[a | e] s']; simpl in *.
  - destruct Hm as [H3 H4]. destruct (Hk a s') as [H1 H2]. split; congruence.
  - exact Hm.
Qed.

Lemma keeps_try_catch {A} (m : M A) (handler : string -> M A) :
  keeps_logs m -> (forall e, keeps_logs (handler e)) ->
  keeps_logs (Effect.try_catch m handler).
Proof.
  intros Hm Hh s. unfold Effect.try_catch.
  specialize (Hm s). destruct (m s) as [[a | e] s']; simpl in *.
  - exact Hm.
  - destruct Hm as [H3 H4]. destruct (Hh e s') as [H1 H2]. split; congruence.
Qed.

Lemma keeps_if {A} (b : bool) (m1 m2 : M A) :
  keeps_logs m1 -> keeps_logs m2 -> keeps_logs (if b then m1 else m2).
Proof. destruct b; auto. Qed.

(** Goes through a method body along its binds, catches and branches. *)
Ltac frame :=
  repeat first
    [ progress intros
    | apply keeps_ret | apply keeps_throw | apply keeps_lift | apply keeps_read
    | apply keeps_call | assumption
    | apply keeps_try_catch | apply keeps_if | apply keeps_bind
    | match goal with
      | |- keeps_logs (match ?x with Some _ => _ | None => _ end) => destruct x
      end ].

Lemma keeps_init : keeps_logs (init w).
Proof.
  unfold init. apply keeps_bind; [ apply keeps_call | ].
  intros _ s. split; reflexivity.
Qed.

Lemma keeps_ensure_context : keeps_logs (ensure_context w).
Proof. pose proof keeps_init. unfold ensure_context. frame. Qed.

Lemma keeps_analyzeJsonResponse jsonData endpoint :
  keeps_logs (analyzeJsonResponse rt jsonData endpoint).
Proof. apply keeps_lift. Qed.

Lemma keeps_try_captured_endpoint amount c :
  keeps_logs (try_captured_endpoint rt w amount c).
Proof.
  unfold try_captured_endpoint, get_request, post_request, analyzeJsonResponse. frame.
Qed.

Lemma keeps_try_captured amount l : keeps_logs (try_captured rt w amount l).
Proof.
  induction l as [ | c rest IH ]; simpl; [ frame | ].
  pose proof (keeps_try_captured_endpoint amount c). frame.
Qed.

Lemma keeps_try_fallback_endpoint accountId amount endpoint :
  keeps_logs (try_fallback_endpoint rt w accountId amount endpoint).
Proof. unfold try_fallback_endpoint, get_request, analyzeJsonResponse. frame. Qed.

Lemma keeps_try_fallback accountId amount l :
  keeps_logs (try_fallback rt w accountId amount l).
Proof.
  induction l as [ | e rest IH ]; simpl; [ frame | ].
  pose proof (keeps_try_fallback_endpoint accountId amount e). frame.
Qed.

Lemma keeps_try_endpoint endpoint : keeps_logs (try_endpoint rt w endpoint).
Proof. unfold try_endpoint, get_request, analyzeJsonResponse. frame. Qed.

Lemma keeps_try_endpoints l : keeps_logs (try_endpoints rt w l).
Proof.
  induction l as [ | e rest IH ]; simpl; [ frame | ].
  pose proof (keeps_try_endpoint e). frame.
Qed.

Lemma keeps_findTransactionsByAmount accountId amount :
  keeps_logs (findTransactionsByAmount rt w accountId amount).
Proof.
  unfold findTransactionsByAmount.
  apply keeps_bind; [ apply keeps_ensure_context | intros _ ].
  apply keeps_bind; [ apply keeps_read | intros s ].
  apply keeps_bind; [ apply keeps_try_captured | intros [found | ]; [ frame | ] ].
  apply keeps_bind; [ apply keeps_try_fallback | intros [found | ]; frame ].
Qed.

Lemma keeps_getAccountDetails accountId : keeps_logs (getAccountDetails rt w accountId).
Proof.
  unfold getAccountDetails.
  apply keeps_bind; [ apply keeps_ensure_context | intros _ ].
  apply keeps_bind; [ apply keeps_try_endpoints | intros [found | ]; frame ].
Qed.

Lemma keeps_getTransactions accountId : keeps_logs (getTransactions rt w accountId).
Proof.
  unfold getTransactions.
  apply keeps_bind; [ apply keeps_ensure_context | intros _ ].
  apply keeps_bind; [ apply keeps_try_endpoints | intros [found | ]; frame ].
Qed.

Lemma keeps_dispose : keeps_logs dispose.
Proof. unfold dispose. frame. Qed.

(** C10 (as amended).  [storeCapturedEndpoint] appends one record to the
    captured-endpoint log, appends one to the JSON-response log exactly when
    the data is truthy, and touches no earlier entry; no method of the helper
    removes or changes an entry of either log. *)
Theorem capture_logs_are_append_only endpoint method data s (op : operation) :
  let s' := snd (storeCapturedEndpoint w endpoint method data s) in
  capturedEndpoints s' =
    capturedEndpoints s ++
    [{| ApiHelper.endpoint := endpoint; ApiHelper.method := method;
        ApiHelper.data := data; timestamp := Date_now w (history s) |}] /\
  jsonResponses s' =
    jsonResponses s ++
    (if truthy data
     then [{| r_endpoint := endpoint; r_method := method; r_response := data;
              r_timestamp := Date_now w (history s ++ [DateNow]) |}]
     else []) /\
  (exists added, capturedEndpoints (after rt w op s) = capturedEndpoints s ++ added) /\
  (exists added, jsonResponses (after rt w op s) = jsonResponses s ++ added).
Proof.
  cbv zeta. split; [ | split ].
  - unfold storeCapturedEndpoint, now, call, Effect.bind, Effect.modify, Effect.ret.
    simpl. destruct (truthy data); reflexivity.
  - unfold storeCapturedEndpoint, now, call, Effect.bind, Effect.modify, Effect.ret.
    simpl. destruct (truthy data); simpl; [ reflexivity | ].
    rewrite app_nil_r. reflexivity.
  - assert (Hstore :
      forall e m d st,
        (exists added, capturedEndpoints (snd (storeCapturedEndpoint w e m d st)) =
                       capturedEndpoints st ++ added) /\
        (exists added, jsonResponses (snd (storeCapturedEndpoint w e m d st)) =
                       jsonResponses st ++ added)).
    { intros e m d st.
      unfold storeCapturedEndpoint, now, call, Effect.bind, Effect.modify, Effect.ret.
      simpl. destruct (truthy d); simpl; split; eexists; try reflexivity.
      symmetry. apply app_nil_r. }
    assert (Hkeep : forall A (m : M A) st, keeps_logs m ->
      (exists added, capturedEndpoints (snd (m st)) = capturedEndpoints st ++ added) /\
      (exists added, jsonResponses (snd (m st)) = jsonResponses st ++ added)).
    { intros A m st Hm. destruct (Hm st) as [-> ->].
      split; exists []; symmetry; apply app_nil_r. }
    destruct op; unfold after; try apply Hstore; apply Hkeep;
      auto using keeps_init, keeps_analyzeJsonResponse,
        keeps_findTransactionsByAmount, keeps_getAccountDetails,
        keeps_getTransactions, keeps_dispose.
    + unfold getCapturedEndpoints. frame.
    + unfold getJsonResponses. frame.
Qed.

End CaptureLog.

(** C10, as stated, fails: [false] is not [null], yet nothing reaches the
    JSON-response log. *)
Lemma falsy_data_is_not_logged :
  let s' := snd (ApiHelper.storeCapturedEndpoint Sample.offline
                   "/services/bank/accounts/13344" "GET" (JBool false)
                   (ApiHelper.constructor [])) in
  JBool false <> JNull /\
  List.length (ApiHelper.capturedEndpoints s') = 1 /\
  ApiHelper.jsonResponses s' = [].
Proof. cbv zeta. repeat split. discriminate. Qed.

(* ===================================================================== *)
(** * Properties of the endpoint prober                                  *)
(* ===================================================================== *)

Section Prober.

Import ApiHelper.

Variable rt : runtime.
Variable w : world.

(** The state after some more calls to the outside. *)
Definition add_history (s : state) (calls : list action) : state :=
  {| requestContext := requestContext s;
     capturedEndpoints := capturedEndpoints s;
     jsonResponses := jsonResponses s;
     history := history s ++ calls |}.

(** The request that a captured call stands for; none when its method is
    neither GET nor POST. *)
Definition candidate (c : captured) : list action :=
  if String.eqb (method c) "GET" then [Get (endpoint c)]
  else if String.eqb (method c) "POST" then [Post (endpoint c)]
  else [].

(** What comes back when the captured call is replayed after [past]. *)
Definition served (past : list action) (c : captured) : completion response :=
  if String.eqb (method c) "GET" then http_get w past (endpoint c)
  else if String.eqb (method c) "POST" then http_post w past (endpoint c)
  else Throw "TypeError: Cannot read properties of undefined".

(** The candidate list of a query, in the order of the two loops: the matching
    captured calls as the log has them, oldest first, then the five fallback
    paths. *)
Definition candidates (accountId : string) (log : list captured) : list action :=
  flat_map candidate (filter (matches_topic accountId) log)
  ++ map Get (fallbackEndpoints accountId).

(** What one iteration of the captured loop returns, if it returns. *)
Definition captured_outcome (amount : string) (past : list action) (c : captured)
    : option result :=
  match served past c with
  | Normal response =>
      if (resp_status response =? 200)%Z then
        match resp_json response with
        | Normal jsonData =>
            match analyze rt jsonData (endpoint c) with
            | Normal a =>
                match filter_by_amount rt amount jsonData with
                | Normal filteredData =>
                    Some {| res_status := resp_status response;
                            res_data := filteredData;
                            res_headers := Some (resp_headers response);
                            res_endpoint := endpoint c;
                            res_analysis := a;
                            originalData := Some jsonData |}
                | Throw _ => None
                end
            | Throw _ => None
            end
        | Throw _ => None
        end
      else None
  | Throw _ => None
  end.

Lemma add_history_nil s : add_history s [] = s.
Proof. destruct s. unfold add_history. simpl. rewrite app_nil_r. reflexivity. Qed.

Lemma add_history_app s d1 d2 :
  add_history (add_history s d1) d2 = add_history s (d1 ++ d2).
Proof. unfold add_history. simpl. rewrite app_assoc. reflexivity. Qed.

Lemma try_captured_endpoint_eq amount c s :
  try_captured_endpoint rt w amount c s =
  (Normal (captured_outcome amount (history s) c), add_history s (candidate c)).
Proof.
  unfold try_captured_endpoint, captured_outcome, served, candidate,
    get_request, post_request, call, analyzeJsonResponse,
    Effect.try_catch, Effect.bind, Effect.lift, Effect.ret, Effect.throw.
  destruct (String.eqb (method c) "GET").
  - destruct (http_get w (history s) (endpoint c)) as [response | e]; [ | reflexivity ].
    destruct (resp_status response =? 200)%Z; [ | reflexivity ].
    destruct (resp_json response) as [jsonData | e];
      [ | destruct (resp_text response); reflexivity ].
    destruct (analyze rt jsonData (endpoint c)) as [a | e];
      [ | destruct (resp_text response); reflexivity ].
    destruct (filter_by_amount rt amount jsonData) as [d | e];
      [ reflexivity | destruct (resp_text response); reflexivity ].
  - destruct (String.eqb (method c) "POST").
    + destruct (http_post w (history s) (endpoint c)) as [response | e]; [ | reflexivity ].
      destruct (resp_status response =? 200)%Z; [ | reflexivity ].
      destruct (resp_json response) as [jsonData | e];
        [ | destruct (resp_text response); reflexivity ].
      destruct (analyze rt jsonData (endpoint c)) as [a | e];
        [ | destruct (resp_text response); reflexivity ].
      destruct (filter_by_amount rt amount jsonData) as [d | e];
        [ reflexivity | destruct (resp_text response); reflexivity ].
    + rewrite add_history_nil. reflexivity.
Qed.

(** The captured loop as a function of the calls made before it: what it
    returns, and the requests it issues. *)
Fixpoint run_captured (amount : string) (past : list action) (l : list captured)
    : option result * list action :=
  match l with
  | [] => (None, [])
  | c :: rest =>
      match captured_outcome amount past c with
      | Some found => (Some found, candidate c)
      | None =>
          let '(r, issued) := run_captured amount (past ++ candidate c) rest in
          (r, candidate c ++ issued)
      end
  end.

Lemma try_captured_eq amount l s :
  try_captured rt w amount l s =
  (Normal (fst (run_captured amount (history s) l)),
   add_history s (snd (run_captured amount (history s) l))).
Proof.
  revert s. induction l as [ | c rest IH ]; intros s; simpl.
  - rewrite add_history_nil. reflexivity.
  - unfold Effect.bind. rewrite try_captured_endpoint_eq.
    destruct (captured_outcome amount (history s) c) as [found | ]; [ reflexivity | ].
    rewrite IH. simpl.
    destruct (run_captured amount (history s ++ candidate c) rest) as [r issued].
    simpl. rewrite add_history_app. reflexivity.
Qed.

(** What one iteration of the fallback loop returns, if it returns. *)
Definition fallback_outcome (accountId amount : string) (past : list action)
    (endpoint : string) : option result :=
  match http_get w past endpoint with
  | Normal response =>
      if (resp_status response =? 200)%Z then
        match
          cbind (resp_json response) (fun jsonData =>
          cbind (analyze rt jsonData endpoint) (fun a => Normal (jsonData, a)))
        with
        | Normal (jsonData, a) =>
            Some {| res_status := resp_status response;
                    res_data := jsonData;
                    res_headers := Some (resp_headers response);
                    res_endpoint := endpoint;
                    res_analysis := a;
                    originalData := None |}
        | Throw _ =>
            match resp_text response with
            | Normal textContent =>
                Some {| res_status := resp_status response;
                        res_data :=
                          JObj [ ("html", JStr textContent);
                                 ("containsAccount",
                                  JBool (includes textContent accountId));
                                 ("containsAmount",
                                  JBool (includes textContent amount)) ];
                        res_headers := Some (resp_headers response);
                        res_endpoint := endpoint;
                        res_analysis :=
                          html_analysis (includes textContent accountId)
                                        (includes textContent amount);
                        originalData := None |}
            | Throw _ => None
            end
        end
      else None
  | Throw _ => None
  end.

Lemma try_fallback_endpoint_eq accountId amount endpoint s :
  try_fallback_endpoint rt w accountId amount endpoint s =
  (Normal (fallback_outcome accountId amount (history s) endpoint),
   add_history s [Get endpoint]).
Proof.
  unfold try_fallback_endpoint, fallback_outcome, get_request, call,
    analyzeJsonResponse, Effect.try_catch, Effect.bind, Effect.lift, Effect.ret.
  destruct (http_get w (history s) endpoint) as [response | e]; [ | reflexivity ].
  destruct (resp_status response =? 200)%Z; [ | reflexivity ].
  destruct (resp_json response) as [jsonData | e]; simpl;
    [ | destruct (resp_text response); reflexivity ].
  destruct (analyze rt jsonData endpoint) as [a | e]; simpl;
    [ reflexivity | destruct (resp_text response); reflexivity ].
Qed.

Fixpoint run_fallback (accountId amount : string) (past : list action) (l : list string)
    : option result * list action :=
  match l with
  | [] => (None, [])
  | endpoint :: rest =>
      match fallback_outcome accountId amount past endpoint with
      | Some found => (Some found, [Get endpoint])
      | None =>
          let '(r, issued) :=
            run_fallback accountId amount (past ++ [Get endpoint]) rest in
          (r, Get endpoint :: issued)
      end
  end.

Lemma try_fallback_eq accountId amount l s :
  try_fallback rt w accountId amount l s =
  (Normal (fst (run_fallback accountId amount (history s) l)),
   add_history s (snd (run_fallback accountId amount (history s) l))).
Proof.
  revert s. induction l as [ | e rest IH ]; intros s; simpl.
  - rewrite add_history_nil. reflexivity.
  - unfold Effect.bind. rewrite try_fallback_endpoint_eq.
    destruct (fallback_outcome accountId amount (history s) e) as [found | ];
      [ reflexivity | ].
    rewrite IH. simpl.
    destruct (run_fallback accountId amount (history s ++ [Get e]) rest) as [r issued].
    simpl. rewrite add_history_app. reflexivity.
Qed.

(** The answer that nothing returned data. *)
Definition not_found : result :=
  {| res_status := 404;
     res_data := JNull;
     res_headers := Some [];
     res_endpoint := "none";
     res_analysis := no_data "No API endpoints returned data";
     originalData := None |}.

(** The method on a helper whose request context exists: the two loops, one
    after the other. *)
Definition run_query (accountId amount : string) (past : list action)
    (log : list captured) : result * list action :=
  let '(r, issued) := run_captured amount past (filter (matches_topic accountId) log) in
  match r with
  | Some found => (found, issued)
  | None =>
      let '(r', issued') :=
        run_fallback accountId amount (past ++ issued) (fallbackEndpoints accountId) in
      match r' with
      | Some found => (found, issued ++ issued')
      | None => (not_found, issued ++ issued')
      end
  end.

Lemma findTransactionsByAmount_eq accountId amount s :
  requestContext s = true ->
  findTransactionsByAmount rt w accountId amount s =
  (Normal (fst (run_query accountId amount (history s) (capturedEndpoints s))),
   add_history s (snd (run_query accountId amount (history s) (capturedEndpoints s)))).
Proof.
  intros Hctx.
  unfold findTransactionsByAmount, ensure_context, run_query, Effect.bind, Effect.read,
    Effect.ret.
  rewrite Hctx. rewrite try_captured_eq.
  destruct (run_captured amount (history s)
              (filter (matches_topic accountId) (capturedEndpoints s))) as [r issued].
  cbn [fst snd]. destruct r as [found | ]; [ reflexivity | ].
  rewrite try_fallback_eq. cbn [history add_history fst snd].
  destruct (run_fallback accountId amount (history s ++ issued)
              (fallbackEndpoints accountId)) as [r' issued'].
  cbn [fst snd]. destruct r' as [found | ]; rewrite add_history_app; reflexivity.
Qed.

(** ** The order in which candidates are tried *)

Lemma captured_outcome_status amount past c found :
  captured_outcome amount past c = Some found -> res_status found = 200%Z.
Proof.
  unfold captured_outcome.
  destruct (served past c) as [response | ]; [ | discriminate ].
  destruct (resp_status response =? 200)%Z eqn:E; [ | discriminate ].
  destruct (resp_json response) as [j | ]; [ | discriminate ].
  destruct (analyze rt j (endpoint c)); [ | discriminate ].
  destruct (filter_by_amount rt amount j); [ | discriminate ].
  intros [= <-]. simpl. apply Z.eqb_eq. exact E.
Qed.

Lemma fallback_outcome_status accountId amount past endpoint found :
  fallback_outcome accountId amount past endpoint = Some found ->
  res_status found = 200%Z.
Proof.
  unfold fallback_outcome.
  destruct (http_get w past endpoint) as [response | ]; [ | discriminate ].
  destruct (resp_status response =? 200)%Z eqn:E; [ | discriminate ].
  apply Z.eqb_eq in E.
  destruct (cbind _ _) as [[j a] | ].
  - intros [= <-]. exact E.
  - destruct (resp_text response); [ | discriminate ]. intros [= <-]. exact E.
Qed.

(** The captured loop issues a prefix of its candidates, all of them when it
    returns nothing. *)
Lemma run_captured_prefix amount l past :
  exists untried,
    flat_map candidate l = snd (run_captured amount past l) ++ untried /\
    (fst (run_captured amount past l) = None -> untried = []) /\
    (forall found, fst (run_captured amount past l) = Some found ->
                   res_status found = 200%Z).
Proof.
  revert past. induction l as [ | c rest IH ]; intros past; simpl.
  - exists []. repeat split; congruence.
  - destruct (captured_outcome amount past c) as [found | ] eqn:E; simpl.
    + exists (flat_map candidate rest). split; [ reflexivity | ].
      split; [ discriminate | ].
      intros found' [= <-]. eapply captured_outcome_status; eassumption.
    + destruct (IH (past ++ candidate c)) as (untried & H1 & H2 & H3).
      destruct (run_captured amount (past ++ candidate c) rest) as [r issued].
      simpl in *. exists untried. rewrite H1, app_assoc. auto.
Qed.

Lemma run_fallback_prefix accountId amount l past :
  exists untried,
    map Get l = snd (run_fallback accountId amount past l) ++ untried /\
    (fst (run_fallback accountId amount past l) = None -> untried = []) /\
    (forall found, fst (run_fallback accountId amount past l) = Some found ->
                   res_status found = 200%Z).
Proof.
  revert past. induction l as [ | e rest IH ]; intros past; simpl.
  - exists []. repeat split; congruence.
  - destruct (fallback_outcome accountId amount past e) as [found | ] eqn:E; simpl.
    + exists (map Get rest). split; [ reflexivity | ].
      split; [ discriminate | ].
      intros found' [= <-]. eapply fallback_outcome_status; eassumption.
    + destruct (IH (past ++ [Get e])) as (untried & H1 & H2 & H3).
      destruct (run_fallback accountId amount (past ++ [Get e]) rest) as [r issued].
      simpl in *. exists untried. rewrite H1. auto.
Qed.

Lemma run_query_prefix accountId amount past log :
  exists untried,
    candidates accountId log = snd (run_query accountId amount past log) ++ untried /\
    (res_status (fst (run_query accountId amount past log)) = 404%Z -> untried = []).
Proof.
  unfold run_query, candidates.
  generalize (fallbackEndpoints accountId) as fallback. intros fallback.
  destruct (run_captured_prefix amount (filter (matches_topic accountId) log) past)
    as (u1 & H1 & H2 & H3).
  destruct (run_captured amount past (filter (matches_topic accountId) log))
    as [r issued]. simpl in *.
  destruct r as [found | ].
  - exists (u1 ++ map Get fallback). simpl.
    rewrite H1, app_assoc. split; [ reflexivity | ].
    intros Hs. rewrite (H3 found eq_refl) in Hs. discriminate.
  - rewrite (H2 eq_refl) in H1. rewrite app_nil_r in H1.
    destruct (run_fallback_prefix accountId amount fallback (past ++ issued))
      as (u2 & G1 & G2 & G3).
    destruct (run_fallback accountId amount (past ++ issued) fallback)
      as [r' issued']. simpl in *.
    exists u2. rewrite H1, G1, app_assoc.
    destruct r' as [found | ]; simpl; split; try reflexivity.
    + intros Hs. rewrite (G3 found eq_refl) in Hs. discriminate.
    + auto.
Qed.

(** The helper once [init()] has run. *)
Definition initialised (s : state) : state :=
  {| requestContext := true;
     capturedEndpoints := capturedEndpoints s;
     jsonResponses := jsonResponses s;
     history := history s ++ [NewContext] |}.

Lemma findTransactionsByAmount_first_use accountId amount s :
  requestContext s = false ->
  findTransactionsByAmount rt w accountId amount s =
  match newContext w (history s) with
  | Normal _ => findTransactionsByAmount rt w accountId amount (initialised s)
  | Throw e => (Throw e, add_history s [NewContext])
  end.
Proof.
  intros Hctx.
  unfold findTransactionsByAmount, ensure_context, init, call, Effect.bind,
    Effect.read, Effect.modify, Effect.ret.
  rewrite Hctx. simpl.
  destruct (newContext w (history s)); reflexivity.
Qed.

(** C3 (as amended).  The requests of a query are issued in the order of
    [candidates]: the matching captured calls in capture order, oldest first,
    then the fallback paths.  Those issued are a prefix of that list, and the
    whole list when the answer is that no endpoint returned data. *)
Theorem candidates_are_tried_in_capture_order accountId amount s :
  let run := findTransactionsByAmount rt w accountId amount s in
  exists setup issued untried,
    history (snd run) = history s ++ setup ++ issued /\
    (setup = [] \/ setup = [NewContext]) /\
    candidates accountId (capturedEndpoints s) = issued ++ untried /\
    match fst run with
    | Normal found => res_status found = 404%Z -> untried = []
    | Throw _ => issued = []
    end.
Proof.
  cbv zeta.
  assert (Hready : forall s0, requestContext s0 = true ->
    exists issued untried,
      history (snd (findTransactionsByAmount rt w accountId amount s0))
        = history s0 ++ issued /\
      candidates accountId (capturedEndpoints s0) = issued ++ untried /\
      match fst (findTransactionsByAmount rt w accountId amount s0) with
      | Normal found => res_status found = 404%Z -> untried = []
      | Throw _ => issued = []
      end).
  { intros s0 H0. rewrite (findTransactionsByAmount_eq accountId amount s0 H0).
    destruct (run_query_prefix accountId amount (history s0) (capturedEndpoints s0))
      as (untried & H1 & H2).
    exists (snd (run_query accountId amount (history s0) (capturedEndpoints s0))), untried.
    simpl. auto. }
  destruct (requestContext s) eqn:Hctx.
  - destruct (Hready s Hctx) as (issued & untried & H1 & H2 & H3).
    exists [], issued, untried. simpl. auto.
  - rewrite (findTransactionsByAmount_first_use accountId amount s Hctx).
    destruct (newContext w (history s)) as [ [] | e ].
    + destruct (Hready (initialised s) eq_refl) as (issued & untried & H1 & H2 & H3).
      exists [NewContext], issued, untried. simpl in *.
      rewrite H1, <- app_assoc. auto.
    + exists [NewContext], [], (candidates accountId (capturedEndpoints s)).
      simpl. auto.
Qed.

(** The order that the design document states: most recent capture first. *)
Definition most_recent_first (accountId : string) (log : list captured) : list action :=
  flat_map candidate (rev (filter (matches_topic accountId) log))
  ++ map Get (fallbackEndpoints accountId).

(** ** The first captured call that returns data ends the query *)

Lemma run_captured_app amount before c after past found :
  fst (run_captured amount past before) = None ->
  captured_outcome amount (past ++ snd (run_captured amount past before)) c
    = Some found ->
  run_captured amount past (before ++ c :: after) =
  (Some found, snd (run_captured amount past before) ++ candidate c).
Proof.
  revert past. induction before as [ | b rest IH ]; intros past; simpl.
  - intros _. rewrite app_nil_r. intros ->. reflexivity.
  - destruct (captured_outcome amount past b); simpl; [ discriminate | ].
    specialize (IH (past ++ candidate b)).
    destruct (run_captured amount (past ++ candidate b) rest) as [r issued].
    simpl in *. intros Hr Hc. rewrite app_assoc in Hc.
    rewrite (IH Hr Hc). rewrite app_assoc. reflexivity.
Qed.


End Prober.

(** C3, as stated, fails: with two matching captures, the older one is
    requested first, which is not the most-recent-first order. *)
Lemma oldest_capture_is_tried_first :
  let s := Sample.helper_with Sample.offline
             [("/api/transactions/A", "GET"); ("/api/transactions/B", "GET")] in
  let run := ApiHelper.findTransactionsByAmount Sample.runtime0 Sample.offline
               "13344" "35.68" s in
  ApiHelper.requests (ApiHelper.history (snd run)) =
    [ ApiHelper.Get "/api/transactions/A";
      ApiHelper.Get "/api/transactions/B";
      ApiHelper.Get "/services/bank/accounts/13344/transactions";
      ApiHelper.Get "/services/bank/transactions/account/13344";
      ApiHelper.Get "/activity.htm?id=13344";
      ApiHelper.Get "/overview.htm";
      ApiHelper.Get "/findtrans.htm" ] /\
  ApiHelper.requests (ApiHelper.history (snd run)) <>
    most_recent_first "13344" (ApiHelper.capturedEndpoints s).
Proof. cbv zeta. split; [ reflexivity | ]. vm_compute. discriminate. Qed.



(** C2 at its failing inputs.  On [null] the analysis returns before the
    summary is computed, and the verdict has none.  On an HTML body the
    literal summary counts one INFO check while the verdict holds three
    checks, here one INFO, one PASS and one FAIL. *)
Theorem summary_absent_or_miscounted :
  (forall rt endpoint,
     exists a, ApiHelper.analyze rt JNull endpoint = Normal a /\
               List.length (ApiHelper.validations a) = 1 /\
               ApiHelper.a_summary a = None) /\
  (exists found,
     fst (ApiHelper.findTransactionsByAmount Sample.runtime0 Sample.html_site
            "13344" "35.68" (ApiHelper.constructor [])) = Normal found /\
     ApiHelper.a_summary (ApiHelper.res_analysis found) =
       Some {| ApiHelper.passed := 0; ApiHelper.failed := 0;
               ApiHelper.missing := 0; ApiHelper.info := 1 |} /\
     ApiHelper.summarize (ApiHelper.validations (ApiHelper.res_analysis found)) =
       {| ApiHelper.passed := 1; ApiHelper.failed := 1;
          ApiHelper.missing := 0; ApiHelper.info := 1 |}) /\
  (forall containsAccount containsAmount,
     ApiHelper.a_summary (ApiHelper.html_analysis containsAccount containsAmount) <>
     Some (ApiHelper.summarize
             (ApiHelper.validations
                (ApiHelper.html_analysis containsAccount containsAmount)))).
Proof.
  split; [ | split ].
  - intros rt endpoint. eexists. repeat split.
  - eexists. repeat split.
  - intros [] []; vm_compute; discriminate.
Qed.

(* ===================================================================== *)
(** * Properties of the registration retry loop                          *)
(* ===================================================================== *)

Section Registration.

Import Scenario BasePage RegisterPage.

Variable w : world.

(** ** Calls that cannot throw *)

Definition total {A} (m : M A) : Prop :=
  forall s, exists a s', m s = (Normal a, s').

Lemma total_ret {A} (a : A) : total (Effect.ret a).
Proof. intros s. unfold Effect.ret. eauto. Qed.

Lemma total_read : total (@Effect.read session).
Proof. intros s. unfold Effect.read. eauto. Qed.

Lemma total_modify f : total (@Effect.modify session f).
Proof. intros s. unfold Effect.modify. eauto. Qed.

Lemma total_bind {A B} (m : M A) (k : A -> M B) :
  total m -> (forall a, total (k a)) -> total (Effect.bind m k).
Proof.
  intros Hm Hk s. unfold Effect.bind.
  destruct (Hm s) as (a & s' & ->). apply Hk.
Qed.

(** A [try] whose handler cannot throw cannot throw. *)
Lemma total_try_catch {A} (m : M A) (handler : string -> M A) :
  (forall e, total (handler e)) -> total (Effect.try_catch m handler).
Proof.
  intros Hh s. unfold Effect.try_catch.
  destruct (m s) as [[a | e] s']; [ eauto | apply Hh ].
Qed.

Lemma total_if {A} (b : bool) (m1 m2 : M A) :
  total m1 -> total m2 -> total (if b then m1 else m2).
Proof. destruct b; auto. Qed.

Lemma total_call {A} a (f : list action -> A) :
  total (call a (fun past => Normal (f past))).
Proof. intros s. unfold call. eauto. Qed.

Lemma total_waitForTimeout ms : total (waitForTimeout ms).
Proof. apply (total_call _ (fun _ => tt)). Qed.

Lemma total_isElementVisible selector : total (isElementVisible w selector).
Proof. apply total_try_catch. intros e. apply total_ret. Qed.

Lemma total_any_visible selectors : total (any_visible w selectors).
Proof.
  induction selectors as [ | sel rest IH ]; simpl; [ apply total_ret | ].
  apply total_bind; [ apply total_isElementVisible | ].
  intros b. apply total_if; [ apply total_ret | exact IH ].
Qed.

Lemma total_verifyRegistrationSuccess name : total (verifyRegistrationSuccess w name).
Proof. apply total_try_catch. intros e. apply total_ret. Qed.

Lemma total_generateSequentialUsername attempt :
  total (DataGenerator.generateSequentialUsername w attempt).
Proof.
  unfold DataGenerator.generateSequentialUsername.
  apply total_bind; [ apply (total_call _ (fun _ => tt)) | intros _ ].
  apply total_bind; [ apply (total_call _ (fun past => hrtime w past)) | intros ns ].
  apply total_bind;
    [ apply (total_call _ (fun past => map (randomBytes w past) (seq 0 6))) | intros bytes ].
  apply total_ret.
Qed.

Lemma total_regenerate attempt : total (regenerate w attempt).
Proof.
  unfold regenerate, set_username.
  apply total_bind; [ apply total_generateSequentialUsername | intros name ].
  apply total_modify.
Qed.

(** ** One iteration, step by step *)

(** The statements of the [try] block up to the submission of the form. *)
Definition prepare (attempt : nat) : M unit :=
  Effect.bind (log_attempt attempt) (fun _ =>
  Effect.bind (navigateToRegister w) (fun _ =>
  Effect.bind Effect.read (fun s =>
  Effect.bind (fillRegistrationForm w (userData s)) (fun _ =>
  submitRegistration w)))).

(** The rest of the [try] block: the three inspections and what follows. *)
Definition inspect (attempt : nat) : M (option bool) :=
  Effect.bind (hasUsernameExistsError w) (fun hasUsernameError =>
  Effect.bind (hasPasswordError w) (fun hasPasswordError =>
  let check_success : M (option bool) :=
    Effect.bind Effect.read (fun s' =>
    Effect.bind (verifyRegistrationSuccess w (username (userData s'))) (fun isSuccess =>
    if isSuccess then Effect.ret (Some true)
    else
      Effect.bind
        (if (attempt <? maxAttempts)%nat
         then Effect.bind (regenerate w attempt) (fun _ => waitForTimeout 1000%N)
         else Effect.ret tt)
        (fun _ => Effect.ret None))) in
  let check_password : M (option bool) :=
    if hasPasswordError then
      if (attempt <? maxAttempts)%nat then Effect.ret None
      else check_success
    else check_success in
  if hasUsernameError then
    if (attempt <? maxAttempts)%nat
    then Effect.bind (regenerate w attempt) (fun _ => Effect.ret None)
    else check_password
  else check_password)).

(** The [catch] block. *)
Definition recover (attempt : nat) : M (option bool) :=
  Effect.bind
    (if (attempt <? maxAttempts)%nat
     then Effect.bind (regenerate w attempt) (fun _ => waitForTimeout 2000%N)
     else Effect.ret tt)
    (fun _ => Effect.ret None).

Lemma total_inspect attempt : total (inspect attempt).
Proof.
  unfold inspect.
  apply total_bind; [ apply total_any_visible | intros u ].
  apply total_bind; [ apply total_any_visible | intros p ].
  assert (Hsuccess : total
    (Effect.bind Effect.read (fun s' =>
     Effect.bind (verifyRegistrationSuccess w (username (userData s'))) (fun isSuccess =>
     if isSuccess then Effect.ret (Some true)
     else
       Effect.bind
         (if (attempt <? maxAttempts)%nat
          then Effect.bind (regenerate w attempt) (fun _ => waitForTimeout 1000%N)
          else Effect.ret tt)
         (fun _ => Effect.ret None))))).
  { apply total_bind; [ apply total_read | intros s' ].
    apply total_bind; [ apply total_verifyRegistrationSuccess | intros ok ].
    apply total_if; [ apply total_ret | ].
    apply total_bind; [ | intros _; apply total_ret ].
    apply total_if; [ | apply total_ret ].
    apply total_bind; [ apply total_regenerate | intros _; apply total_waitForTimeout ]. }
  cbv zeta.
  repeat apply total_if; auto using total_ret.
  apply total_bind; [ apply total_regenerate | intros _; apply total_ret ].
Qed.

Lemma iteration_eq attempt s :
  iteration w attempt s =
  match prepare attempt s with
  | (Normal _, s1) => inspect attempt s1
  | (Throw _, s1) => recover attempt s1
  end.
Proof.
  pose proof (total_inspect attempt) as Hin.
  unfold total, inspect in Hin.
  unfold iteration, prepare, inspect, recover, Effect.try_catch.
  unfold Effect.bind, Effect.read in *.
  destruct (log_attempt attempt s) as [[[] | e] s0]; [ | reflexivity ].
  destruct (navigateToRegister w s0) as [[[] | e] s1]; [ | reflexivity ].
  destruct (fillRegistrationForm w (userData s1) s1) as [[[] | e] s2]; [ | reflexivity ].
  destruct (submitRegistration w s2) as [[[] | e] s3]; [ | reflexivity ].
  destruct (Hin s3) as (o & s4 & H). rewrite H. reflexivity.
Qed.

(** The username that [generateSequentialUsername(attempt)] builds when it is
    called after [past]. *)
Definition sequential_name (attempt : nat) (past : list action) : string :=
  take 32
    ("usr"
     ++ hex (map (randomBytes w (past ++ [DateNow; Hrtime])) (seq 0 6))
     ++ slice_last 8 (decimal (hrtime w (past ++ [DateNow])))
     ++ (if (0 <? attempt)%nat then "a" ++ decimal_nat attempt else EmptyString))%string.

(** The session after [userData.username = generateSequentialUsername(attempt)]. *)
Definition renamed (attempt : nat) (s : session) : session :=
  {| userData := with_username (userData s) (sequential_name attempt (history s));
     history := history s ++ [DateNow; Hrtime; RandomBytes 6];
     console := console s |}.

Lemma regenerate_eq attempt s :
  regenerate w attempt s = (Normal tt, renamed attempt s).
Proof.
  unfold regenerate, DataGenerator.generateSequentialUsername, set_username, renamed,
    sequential_name, call, Effect.bind, Effect.modify, Effect.ret, record_action.
  simpl. rewrite <- !app_assoc. reflexivity.
Qed.

(** The session after a call to [waitForTimeout]. *)
Definition waited (ms : N) (s : session) : session :=
  record_action (WaitForTimeout ms) s.

Lemma inspect_eq attempt s1 s2 s3 s4 conflict passwordError success :
  hasUsernameExistsError w s1 = (Normal conflict, s2) ->
  hasPasswordError w s2 = (Normal passwordError, s3) ->
  verifyRegistrationSuccess w (username (userData s3)) s3 = (Normal success, s4) ->
  inspect attempt s1 =
  if (attempt <? maxAttempts)%nat then
    if conflict then (Normal None, renamed attempt s3)
    else if passwordError then (Normal None, s3)
    else if success then (Normal (Some true), s4)
    else (Normal None, waited 1000 (renamed attempt s4))
  else if success then (Normal (Some true), s4)
  else (Normal None, s4).
Proof.
  intros Hu Hp Hs. unfold inspect, Effect.bind, Effect.read, Effect.ret.
  rewrite Hu, Hp.
  destruct (attempt <? maxAttempts)%nat;
    destruct conflict; destruct passwordError;
    rewrite ?regenerate_eq, ?Hs; try reflexivity;
    destruct success; rewrite ?regenerate_eq; reflexivity.
Qed.


(** ** What the page calls leave alone *)

(** A call that writes neither to the console lines nor to [userData]. *)
Definition keeps_user {A} (m : M A) : Prop :=
  forall s, console (snd (m s)) = console s /\ userData (snd (m s)) = userData s.

Lemma user_ret {A} (a : A) : keeps_user (Effect.ret a).
Proof. intros s. split; reflexivity. Qed.

Lemma user_throw {A} e : keeps_user (@Effect.throw session A e).
Proof. intros s. split; reflexivity. Qed.

Lemma user_read : keeps_user (@Effect.read session).
Proof. intros s. split; reflexivity. Qed.

Lemma user_call {A} a (answer : list action -> completion A) :
  keeps_user (call a answer).
Proof. intros s. split; reflexivity. Qed.

Lemma user_bind {A B} (m : M A) (k : A -> M B) :
  keeps_user m -> (forall a, keeps_user (k a)) -> keeps_user (Effect.bind m k).
Proof.
  intros Hm Hk s. unfold Effect.bind.
  destruct (Hm s) as [H1 H2]. destruct (m s) as [[a | e] s']; simpl in *.
  - destruct (Hk a s') as [H3 H4]. split; congruence.
  - auto.
Qed.

Lemma user_try_catch {A} (m : M A) (handler : string -> M A) :
  keeps_user m -> (forall e, keeps_user (handler e)) ->
  keeps_user (Effect.try_catch m handler).
Proof.
  intros Hm Hh s. unfold Effect.try_catch.
  destruct (Hm s) as [H1 H2]. destruct (m s) as [[a | e] s']; simpl in *.
  - auto.
  - destruct (Hh e s') as [H3 H4]. split; congruence.
Qed.

Lemma user_if {A} (b : bool) (m1 m2 : M A) :
  keeps_user m1 -> keeps_user m2 -> keeps_user (if b then m1 else m2).
Proof. destruct b; auto. Qed.

(** Goes through a method body along its binds, catches and branches. *)
Ltac untouched :=
  repeat first
    [ progress intros
    | apply user_ret | apply user_throw | apply user_read | apply user_call
    | assumption
    | apply user_try_catch | apply user_if | apply user_bind
    | match goal with
      | |- keeps_user (match ?x with Some _ => _ | None => _ end) => destruct x
      end ].

Lemma user_waitForTimeout ms : keeps_user (waitForTimeout ms).
Proof. apply user_call. Qed.

Lemma user_isElementVisible selector : keeps_user (isElementVisible w selector).
Proof. unfold isElementVisible, waitForVisible. untouched. Qed.

Lemma user_getTextContent selector : keeps_user (getTextContent w selector).
Proof. unfold getTextContent, waitForElement, waitForVisible. untouched. Qed.

Lemma user_any_visible selectors : keeps_user (any_visible w selectors).
Proof.
  induction selectors as [ | sel rest IH ]; simpl; [ untouched | ].
  pose proof (user_isElementVisible sel). untouched.
Qed.

Lemma user_any_success_message selectors : keeps_user (any_success_message w selectors).
Proof.
  induction selectors as [ | sel rest IH ]; simpl; [ untouched | ].
  pose proof (user_isElementVisible sel). pose proof (user_getTextContent sel).
  untouched.
Qed.

Lemma user_verifyRegistrationSuccess name : keeps_user (verifyRegistrationSuccess w name).
Proof.
  pose proof (user_any_success_message successSelectors).
  pose proof (user_any_visible accountElements).
  unfold verifyRegistrationSuccess. untouched.
Qed.

Lemma user_navigateToRegister : keeps_user (navigateToRegister w).
Proof.
  pose proof user_waitForTimeout.
  unfold navigateToRegister, navigateTo. untouched; apply user_waitForTimeout.
Qed.

Lemma user_fill_with fieldName value selectors :
  keeps_user (fill_with w fieldName value selectors).
Proof.
  induction selectors as [ | sel rest IH ]; simpl; [ untouched | ].
  unfold waitForVisible. untouched; apply user_waitForTimeout.
Qed.

Lemma user_fill_fields l : keeps_user (fill_fields w l).
Proof.
  induction l as [ | [[name selector] value] rest IH ]; simpl; [ untouched | ].
  apply user_bind; [ apply user_fill_with | intros _; exact IH ].
Qed.

Lemma user_submit_with selectors : keeps_user (submit_with w selectors).
Proof.
  induction selectors as [ | sel rest IH ]; simpl; [ untouched | ].
  pose proof (user_isElementVisible sel).
  untouched; apply user_waitForTimeout.
Qed.

(** The session after the line that opens an attempt. *)
Definition opened (attempt : nat) (s : session) : list attempt_line :=
  console s ++ [{| number := attempt; identity := username (userData s) |}].

Lemma prepare_user attempt s :
  console (snd (prepare attempt s)) = opened attempt s /\
  userData (snd (prepare attempt s)) = userData s.
Proof.
  assert (Hrest : keeps_user
    (Effect.bind (navigateToRegister w) (fun _ =>
     Effect.bind Effect.read (fun s =>
     Effect.bind (fillRegistrationForm w (userData s)) (fun _ =>
     submitRegistration w))))).
  { pose proof user_navigateToRegister.
    apply user_bind; [ assumption | intros _ ].
    apply user_bind; [ apply user_read | intros s' ].
    apply user_bind; [ apply user_fill_fields | intros _ ].
    apply user_submit_with. }
  destruct (Hrest {| userData := userData s; history := history s;
                     console := opened attempt s |}) as [H1 H2].
  split; [ exact H1 | exact H2 ].
Qed.

(** ** Every way through one iteration *)

Lemma recover_eq attempt s :
  recover attempt s =
  (Normal None,
   if (attempt <? maxAttempts)%nat then waited 2000 (renamed attempt s) else s).
Proof.
  unfold recover, Effect.bind, Effect.ret.
  destruct (attempt <? maxAttempts)%nat; [ | reflexivity ].
  rewrite regenerate_eq. reflexivity.
Qed.

Lemma total_hasUsernameExistsError : total (hasUsernameExistsError w).
Proof. apply total_any_visible. Qed.

Lemma total_hasPasswordError : total (hasPasswordError w).
Proof. apply total_any_visible. Qed.

Lemma user_hasUsernameExistsError : keeps_user (hasUsernameExistsError w).
Proof. apply user_any_visible. Qed.

Lemma user_hasPasswordError : keeps_user (hasPasswordError w).
Proof. apply user_any_visible. Qed.

(** Either the preparation throws and the [catch] block runs, or the three
    inspections run, none of which writes to the console lines or to
    [userData]. *)
Lemma iteration_detail attempt s :
  (exists e s1,
     prepare attempt s = (Throw e, s1) /\
     iteration w attempt s =
       (Normal None,
        if (attempt <? maxAttempts)%nat then waited 2000 (renamed attempt s1) else s1)) \/
  (exists s1 s2 s3 s4 conflict passwordError success,
     prepare attempt s = (Normal tt, s1) /\
     hasUsernameExistsError w s1 = (Normal conflict, s2) /\
     hasPasswordError w s2 = (Normal passwordError, s3) /\
     verifyRegistrationSuccess w (username (userData s3)) s3 = (Normal success, s4) /\
     console s3 = console s1 /\ userData s3 = userData s1 /\
     console s4 = console s1 /\ userData s4 = userData s1 /\
     iteration w attempt s =
       if (attempt <? maxAttempts)%nat then
         if conflict then (Normal None, renamed attempt s3)
         else if passwordError then (Normal None, s3)
         else if success then (Normal (Some true), s4)
         else (Normal None, waited 1000 (renamed attempt s4))
       else if success then (Normal (Some true), s4)
       else (Normal None, s4)).
Proof.
  rewrite iteration_eq.
  destruct (prepare attempt s) as [[[] | e] s1] eqn:Hprep.
  - right.
    destruct (total_hasUsernameExistsError s1) as (conflict & s2 & Hu).
    destruct (total_hasPasswordError s2) as (passwordError & s3 & Hp).
    destruct (total_verifyRegistrationSuccess (username (userData s3)) s3)
      as (success & s4 & Hs).
    pose proof (user_hasUsernameExistsError s1) as [U1 U2].
    pose proof (user_hasPasswordError s2) as [P1 P2].
    pose proof (user_verifyRegistrationSuccess (username (userData s3)) s3) as [V1 V2].
    rewrite Hu in U1, U2. rewrite Hp in P1, P2. rewrite Hs in V1, V2.
    cbn [fst snd] in U1, U2, P1, P2, V1, V2.
    exists s1, s2, s3, s4, conflict, passwordError, success.
    repeat split; try congruence.
    apply (@inspect_eq attempt _ _ _ _ _ _ _ Hu Hp Hs).
  - left. exists e, s1. split; [ reflexivity | apply recover_eq ].
Qed.

(** An iteration always completes, writes its opening line and nothing else to
    the console lines, and either returns [true] or reaches the next one. *)
Lemma iteration_outcome attempt s :
  exists o s',
    iteration w attempt s = (Normal o, s') /\
    console s' = opened attempt s /\
    (o = None \/ o = Some true).
Proof.
  pose proof (prepare_user attempt s) as [Hc _].
  destruct (iteration_detail attempt s)
    as [ (e & s1 & Hprep & ->)
       | (s1 & s2 & s3 & s4 & c & p & ok & Hprep & _ & _ & _ & C3 & _ & C4 & _ & ->) ];
    rewrite Hprep in Hc; simpl in Hc.
  - eexists _, _. split; [ reflexivity | ].
    split; [ | auto ].
    destruct (attempt <? maxAttempts)%nat; simpl; exact Hc.
  - destruct (attempt <? maxAttempts)%nat, c, p, ok;
      eexists _, _; (split; [ reflexivity | ]); simpl; split; auto; congruence.
Qed.

(** ** The whole loop *)

Lemma attempts_from_outcome remaining attempt s :
  exists b s' lines,
    attempts_from w remaining attempt s = (Normal b, s') /\
    console s' = console s ++ lines /\
    map number lines = seq attempt (List.length lines) /\
    List.length lines <= remaining /\
    (b = false -> List.length lines = remaining).
Proof.
  revert attempt s. induction remaining as [ | r IH ]; intros attempt s; simpl.
  - exists false, s, []. unfold Effect.ret. rewrite app_nil_r. auto.
  - unfold Effect.bind.
    destruct (iteration_outcome attempt s) as (o & s1 & -> & Hc & [-> | ->]).
    + destruct (IH (S attempt) s1) as (b & s' & lines & -> & Hl & Hn & Hle & Hb).
      exists b, s', ({| number := attempt; identity := username (userData s) |} :: lines).
      split; [ reflexivity | ].
      split; [ rewrite Hl, Hc; unfold opened; rewrite <- app_assoc; reflexivity | ].
      simpl. rewrite Hn. repeat split; auto with arith.
    + exists true, s1, [{| number := attempt; identity := username (userData s) |}].
      unfold Effect.ret. simpl. repeat split; auto with arith. discriminate.
Qed.


(** ** The usernames of the retries *)

Lemma length_append (a b : string) :
  String.length (a ++ b) = String.length a + String.length b.
Proof. induction a as [ | c a IH ]; simpl; [ reflexivity | rewrite IH; reflexivity ]. Qed.

Lemma take_all n (a : string) : String.length a <= n -> take n a = a.
Proof.
  revert n. induction a as [ | c a IH ]; intros n H; destruct n; simpl in *;
    try reflexivity; [ lia | rewrite IH by lia; reflexivity ].
Qed.

Lemma length_drop n (a : string) : String.length (drop n a) = String.length a - n.
Proof.
  revert n. induction a as [ | c a IH ]; intros n; destruct n; simpl; auto.
Qed.

Lemma length_slice_last n (a : string) : String.length (slice_last n a) <= n.
Proof. unfold slice_last. rewrite length_drop. lia. Qed.

Lemma length_hex bytes : String.length (hex bytes) = 2 * List.length bytes.
Proof. induction bytes as [ | b bs IH ]; simpl; [ reflexivity | rewrite IH; lia ]. Qed.

(** The last code unit of a string. *)
Fixpoint last_char (a : string) : option ascii :=
  match a with
  | EmptyString => None
  | String c EmptyString => Some c
  | String _ rest => last_char rest
  end.

Lemma append_nonempty (a b : string) : b <> EmptyString -> (a ++ b)%string <> EmptyString.
Proof. destruct a; simpl; [ auto | discriminate ]. Qed.

Lemma last_char_append (a b : string) :
  b <> EmptyString -> last_char (a ++ b) = last_char b.
Proof.
  intros Hb. induction a as [ | x a IH ]; [ reflexivity | ].
  change (String x a ++ b)%string with (String x (a ++ b)).
  pose proof (@append_nonempty a b Hb) as Hne.
  cbn [last_char]. destruct (a ++ b)%string; [ contradiction | exact IH ].
Qed.

Lemma decimal_digit k :
  1 <= k <= 9 -> decimal_nat k = String (digit_char k) EmptyString.
Proof.
  intros [H1 H2].
  do 10 (destruct k as [ | k ]; [ try reflexivity; lia | ]). lia.
Qed.

(** What tells the identities of a run apart: 0 for a name that does not start
    with [usr], else the digit that the name ends with. *)
Definition key (name : string) : nat :=
  if prefix "usr" name then
    match last_char name with
    | Some c => nat_of_ascii c - 48
    | None => 0
    end
  else 0.

(** The name generated on attempt [k], for [k] from 1 to 9, is not cut by
    [substring(0, 32)]; it starts with [usr] and ends with the digit [k]. *)
Lemma key_sequential k past : 1 <= k <= 9 -> key (sequential_name k past) = k.
Proof.
  intros Hk. unfold sequential_name.
  assert (Hpos : (0 <? k)%nat = true) by (apply Nat.ltb_lt; lia).
  rewrite Hpos, (decimal_digit Hk).
  set (randomHex := hex (map (randomBytes w (past ++ [DateNow; Hrtime])) (seq 0 6))).
  set (nanoTime := slice_last 8 (decimal (hrtime w (past ++ [DateNow])))).
  set (suffix := ("a" ++ String (digit_char k) EmptyString)%string).
  assert (Hhex : String.length randomHex = 12).
  { unfold randomHex. rewrite length_hex, length_map, length_seq. reflexivity. }
  assert (Hnano : String.length nanoTime <= 8) by apply length_slice_last.
  assert (Hsuffix : suffix <> EmptyString) by discriminate.
  rewrite take_all.
  - unfold key.
    replace (prefix "usr" ("usr" ++ randomHex ++ nanoTime ++ suffix)) with true
      by reflexivity.
    rewrite !last_char_append; auto using append_nonempty.
    unfold suffix. cbn [append last_char].
    destruct Hk as [H1 H2].
    do 10 (destruct k as [ | k ]; [ try reflexivity; lia | ]). lia.
  - rewrite !length_append, Hhex. unfold suffix. simpl. lia.
Qed.

(** A name from [generateUniqueUsername] does not start with [usr]: its second
    character is a hexadecimal digit. *)
Lemma unique_username_is_not_sequential b digest clock :
  prefix "usr" (DataGenerator.unique_username (b :: digest) clock) = false.
Proof. destruct b; reflexivity. Qed.

(** ** A run in which every inspection finds the conflict *)

(** The session is in attempt [n]: the last line on the console opens it. *)
Definition in_attempt (n : nat) (s : session) : Prop :=
  exists earlier name, console s = earlier ++ [{| number := n; identity := name |}].

(** The lines of the attempts from [a] on, the first one made as [name] and
    each later one as the name generated on the attempt before it. *)
Inductive tried : nat -> string -> list attempt_line -> Prop :=
| tried_last a name :
    tried a name [{| number := a; identity := name |}]
| tried_next a name past rest :
    tried (S a) (sequential_name a past) rest ->
    tried a name ({| number := a; identity := name |} :: rest).

Section AlwaysConflict.

Hypothesis conflict_every_time :
  forall s, fst (hasUsernameExistsError w s) = Normal true.

Hypothesis no_success_on_last_attempt :
  forall s, in_attempt maxAttempts s ->
            fst (verifyRegistrationSuccess w (username (userData s)) s) = Normal false.

Lemma iteration_conflict attempt s :
  attempt < maxAttempts ->
  exists s' past,
    iteration w attempt s = (Normal None, s') /\
    console s' = opened attempt s /\
    username (userData s') = sequential_name attempt past.
Proof.
  intros Hlt. pose proof (prepare_user attempt s) as [Hc _].
  apply Nat.ltb_lt in Hlt.
  destruct (iteration_detail attempt s)
    as [ (e & s1 & Hprep & ->)
       | (s1 & s2 & s3 & s4 & c & p & ok & Hprep & Hu & _ & _ & C3 & _ & _ & _ & ->) ];
    rewrite Hprep in Hc; cbn [snd] in Hc; rewrite Hlt.
  - exists (waited 2000 (renamed attempt s1)), (history s1). auto.
  - pose proof (conflict_every_time s1) as Hconflict.
    rewrite Hu in Hconflict. injection Hconflict as ->.
    exists (renamed attempt s3), (history s3). repeat split. simpl. congruence.
Qed.

Lemma iteration_last s :
  exists s',
    iteration w maxAttempts s = (Normal None, s') /\
    console s' = opened maxAttempts s.
Proof.
  pose proof (prepare_user maxAttempts s) as [Hc _].
  destruct (iteration_detail maxAttempts s)
    as [ (e & s1 & Hprep & ->)
       | (s1 & s2 & s3 & s4 & c & p & ok & Hprep & _ & _ & Hs & C3 & _ & C4 & _ & ->) ];
    rewrite Hprep in Hc; cbn [snd] in Hc.
  - exists s1. auto.
  - assert (Hin : in_attempt maxAttempts s3).
    { exists (console s), (username (userData s)). rewrite C3. exact Hc. }
    pose proof (no_success_on_last_attempt Hin) as Hno.
    rewrite Hs in Hno. injection Hno as ->.
    exists s4. split; [ reflexivity | congruence ].
Qed.

Lemma attempts_from_conflict remaining attempt s :
  attempt + remaining = maxAttempts ->
  exists s' lines,
    attempts_from w (S remaining) attempt s = (Normal false, s') /\
    console s' = console s ++ lines /\
    tried attempt (username (userData s)) lines /\
    List.length lines = S remaining.
Proof.
  revert attempt s. induction remaining as [ | r IH ]; intros attempt s Hsum.
  - rewrite Nat.add_0_r in Hsum. subst attempt.
    destruct (iteration_last s) as (s' & Hit & Hc).
    exists s', [{| number := maxAttempts; identity := username (userData s) |}].
    simpl. unfold Effect.bind. rewrite Hit.
    repeat split; [ exact Hc | constructor ].
  - destruct (@iteration_conflict attempt s ltac:(lia)) as (s1 & past & Hit & Hc & Hname).
    destruct (IH (S attempt) s1 ltac:(lia)) as (s' & lines & Hrun & Hl & Ht & Hlen).
    exists s', ({| number := attempt; identity := username (userData s) |} :: lines).
    split; [ | split; [ | split ] ].
    + change (attempts_from w (S (S r)) attempt s)
        with (Effect.bind (iteration w attempt)
                (fun outcome =>
                   match outcome with
                   | Some b => Effect.ret b
                   | None => attempts_from w (S r) (S attempt)
                   end) s).
      unfold Effect.bind. rewrite Hit. exact Hrun.
    + rewrite Hl, Hc. unfold opened. rewrite <- app_assoc. reflexivity.
    + apply tried_next with (past := past). rewrite <- Hname. exact Ht.
    + simpl. rewrite Hlen. reflexivity.
Qed.

End AlwaysConflict.

Lemma tried_nonempty a name lines : tried a name lines -> lines <> [].
Proof. intros []; discriminate. Qed.

Lemma tried_numbers a name lines :
  tried a name lines -> map number lines = seq a (List.length lines).
Proof.
  induction 1 as [ a name | a name past rest _ IH ]; simpl; [ reflexivity | ].
  rewrite IH. reflexivity.
Qed.

Lemma tried_keys a name lines :
  tried a name lines ->
  1 <= a -> a + List.length lines <= S maxAttempts ->
  map key (map identity lines) = key name :: seq a (List.length lines - 1).
Proof.
  unfold maxAttempts.
  induction 1 as [ a name | a name past rest Hrest IH ]; intros Ha Hlen; simpl in *.
  - reflexivity.
  - pose proof (tried_nonempty Hrest) as Hne.
    destruct rest as [ | line rest' ]; [ contradiction | ].
    rewrite IH by (simpl in *; lia).
    rewrite key_sequential by (simpl in *; lia).
    simpl. rewrite Nat.sub_0_r. reflexivity.
Qed.


End Registration.



(** The causes that the design document gives for a terminal failure. *)
Inductive signal : Type := Conflict | PasswordError | Undetermined.




(* ===================================================================== *)
(** * Further properties of the response analysis                        *)
(* ===================================================================== *)

Section VerdictShape.

Import ApiHelper.

Variable rt : runtime.

Lemma count_total vs :
  count PASS vs + count FAIL vs + count MISSING vs + count INFO vs = List.length vs.
Proof.
  unfold count. induction vs as [ | v rest IH ]; [ reflexivity | ].
  simpl. destruct (v_status v); simpl; lia.
Qed.

(** X1.  Every check of a verdict is counted once: when the analysis of a
    response that is not [null] returns, the four counts of its summary add up
    to the number of checks. *)
Theorem summary_accounts_for_every_check jsonData endpoint a :
  jsonData <> JNull ->
  analyze rt jsonData endpoint = Normal a ->
  exists sm,
    a_summary a = Some sm /\
    passed sm + failed sm + missing sm + info sm = List.length (validations a).
Proof.
  intros Hnull Ha. exists (summarize (validations a)).
  split; [ exact (@summary_counts_checks rt _ _ _ Hnull Ha) | apply count_total ].
Qed.

Lemma array_includes_has_key {A} (props : list (string * A)) f :
  array_includes (map fst props) f = has_key f props.
Proof.
  unfold has_key. induction props as [ | [k v] rest IH ]; simpl; [ reflexivity | ].
  destruct (String.eqb f k); simpl; [ reflexivity | exact IH ].
Qed.

Lemma presence_checks_fields props fields expected :
  map field (presence_checks props fields expected) = expected.
Proof.
  unfold presence_checks. rewrite map_map.
  induction expected as [ | f rest IH ]; simpl; [ reflexivity | ].
  rewrite IH. destruct (array_includes fields f); reflexivity.
Qed.

Lemma presence_checks_status props expected v :
  In v (presence_checks props (map fst props) expected) ->
  match lookup (field v) props with
  | Some x => v = present (field v) (Some x)
  | None => v = absent (field v)
  end.
Proof.
  unfold presence_checks. rewrite in_map_iff. intros (f & <- & _).
  rewrite array_includes_has_key. unfold has_key.
  destruct (lookup f props) eqn:E; simpl; rewrite E; reflexivity.
Qed.

Lemma presence_checks_no_fail props fields expected :
  count FAIL (presence_checks props fields expected) = 0 /\
  count INFO (presence_checks props fields expected) = 0.
Proof.
  unfold count, presence_checks.
  induction expected as [ | f rest IH ]; simpl; [ auto | ].
  destruct (array_includes fields f); simpl; exact IH.
Qed.

(** X2.  An object response is checked against the four account fields and
    nothing else: the verdict holds one check per field, in the order [id],
    [customerId], [type], [balance]; a field that the object has passes with
    its value, one that it lacks is MISSING; whatever else the object holds, no
    check fails. *)
Theorem object_is_checked_for_account_fields props endpoint a :
  analyze rt (JObj props) endpoint = Normal a ->
  map field (validations a) = ["id"; "customerId"; "type"; "balance"] /\
  (forall v, In v (validations a) ->
     match lookup (field v) props with
     | Some x => v = present (field v) (Some x)
     | None => v = absent (field v)
     end) /\
  exists sm,
    a_summary a = Some sm /\
    failed sm = 0 /\ info sm = 0 /\ passed sm + missing sm = 4.
Proof.
  unfold analyze.
  set (vs := presence_checks props (map fst props) accountFields).
  intros Ha.
  destruct (describe_fields _ _ _ _) as [st | ]; cbn [cbind] in Ha; [ | discriminate ].
  injection Ha as <-. unfold finish. cbn [validations a_summary].
  split; [ apply (presence_checks_fields props (map fst props) accountFields) | ].
  split; [ intros v; apply (@presence_checks_status props accountFields v) | ].
  exists (summarize vs).
  pose proof (count_total vs) as Ht.
  destruct (presence_checks_no_fail props (map fst props) accountFields) as [Hf Hi].
  fold vs in Hf, Hi.
  cbn [summarize failed info passed missing].
  rewrite Hf, Hi in *. repeat split; try reflexivity.
  assert (Hlen : List.length vs = 4) by (unfold vs, presence_checks; apply length_map).
  lia.
Qed.

End VerdictShape.

Lemma summary_accounts_for_every_check_witness :
  exists a,
    ApiHelper.analyze Sample.runtime0 Sample.one_transaction "unknown" = Normal a /\
    exists sm,
      ApiHelper.a_summary a = Some sm /\
      ApiHelper.passed sm + ApiHelper.failed sm + ApiHelper.missing sm
      + ApiHelper.info sm = List.length (ApiHelper.validations a).
Proof.
  eexists. split; [ reflexivity | ].
  apply (@summary_accounts_for_every_check Sample.runtime0 Sample.one_transaction
           "unknown").
  - discriminate.
  - reflexivity.
Defined.

Lemma object_is_checked_for_account_fields_witness :
  exists a,
    ApiHelper.analyze Sample.runtime0
      (JObj [("id", JStr "13344"); ("balance", JStr "515.50"); ("owner", JStr "ada")])
      "unknown" = Normal a /\
    map ApiHelper.field (ApiHelper.validations a) = ["id"; "customerId"; "type"; "balance"].
Proof.
  eexists. split; [ reflexivity | ].
  refine (proj1 (@object_is_checked_for_account_fields Sample.runtime0
                   [("id", JStr "13344"); ("balance", JStr "515.50"); ("owner", JStr "ada")]
                   "unknown" _ _)).
  reflexivity.
Defined.

Section VerdictEdges.

Import ApiHelper.

Variable rt : runtime.

(** X3.  Only the first element of an array is looked at: two arrays with the
    same first element get the same checks, the same field inventory and the
    same summary, or fail with the same error, whatever follows the first
    element and whatever the endpoint is called. *)
Theorem only_first_element_is_inspected firstItem rest rest' endpoint endpoint' :
  match analyze rt (JArr (firstItem :: rest)) endpoint,
        analyze rt (JArr (firstItem :: rest')) endpoint' with
  | Normal a, Normal a' =>
      validations a = validations a' /\
      a_structure a = a_structure a' /\
      a_summary a = a_summary a'
  | Throw e, Throw e' => e = e'
  | _, _ => False
  end.
Proof.
  unfold analyze.
  destruct (own_props firstItem) as [props | ]; cbn [cbind]; [ | reflexivity ].
  destruct (describe_fields _ _ _ _) as [st | ]; cbn [cbind]; [ | reflexivity ].
  destruct (amount_check _ _) as [am | ]; cbn [cbind]; [ | reflexivity ].
  destruct (accountId_check _ _) as [ac | ]; cbn [cbind]; [ | reflexivity ].
  destruct (date_check _ _) as [dc | ]; cbn [cbind]; [ | reflexivity ].
  repeat split.
Qed.

(** What a value validation adds for a field that holds [raw]: one check on
    that field, which either passes or fails with [raw] as its value. *)
Definition judges (name : string) (props : list (string * json))
    (l : list validation) : Prop :=
  match lookup name props with
  | None => l = []
  | Some raw =>
      exists v, l = [v] /\ field v = name /\
        (v_status v = PASS \/ (v_status v = FAIL /\ value v = Some raw))
  end.

Lemma amount_check_judges props l :
  amount_check rt props = Normal l -> judges "amount" props l.
Proof.
  unfold amount_check, judges.
  destruct (lookup "amount" props) as [raw | ]; [ | congruence ].
  destruct (parseFloat rt raw) as [x | ]; cbn [cbind]; [ | discriminate ].
  destruct (negb (isNaN x)); intros [= <-]; eexists; split; try reflexivity;
    simpl; auto.
Qed.

Lemma accountId_check_judges props l :
  accountId_check rt props = Normal l -> judges "accountId" props l.
Proof.
  unfold accountId_check, judges.
  destruct (lookup "accountId" props) as [raw | ]; [ | congruence ].
  destruct (parseInt rt raw) as [x | ]; cbn [cbind]; [ | discriminate ].
  destruct (negb (isNaN x)); intros [= <-]; eexists; split; try reflexivity;
    simpl; auto.
Qed.

Lemma date_check_judges props l :
  date_check rt props = Normal l -> judges "date" props l.
Proof.
  unfold date_check, judges.
  destruct (lookup "date" props) as [raw | ]; [ | congruence ].
  destruct (to_string rt raw) as [x | ]; cbn [cbind]; [ | discriminate ].
  destruct (negb (isNaN (Date_parse rt x))); intros [= <-]; eexists; split;
    try reflexivity; simpl; auto.
Qed.

Lemma judges_length name props l : judges name props l -> List.length l <= 1.
Proof.
  unfold judges. destruct (lookup name props).
  - intros (v & -> & _). simpl. lia.
  - intros ->. simpl. lia.
Qed.

Lemma judges_in name props l v :
  judges name props l -> In v l ->
  field v = name /\
  (v_status v = FAIL -> exists raw, lookup name props = Some raw /\ value v = Some raw).
Proof.
  unfold judges. destruct (lookup name props) as [raw | ].
  - intros (v' & -> & Hf & Hs) [<- | []]. split; [ exact Hf | ].
    intros Hfail. exists raw. destruct Hs as [Hp | [_ Hv]]; [ congruence | auto ].
  - intros -> [].
Qed.

(** X4.  The analysis is strict only about the values of [amount],
    [accountId] and [date]: the verdict of a non-empty array holds between six
    and nine checks, each on one of the six transaction fields, so a field
    outside the schema gets no check at all; and a check that fails is on one
    of those three fields, which the first item holds, with the offending value
    recorded. *)
Theorem only_validated_fields_can_fail firstItem rest endpoint a :
  analyze rt (JArr (firstItem :: rest)) endpoint = Normal a ->
  6 <= List.length (validations a) <= 9 /\
  (forall v, In v (validations a) -> In (field v) transactionFields) /\
  (forall v, In v (validations a) -> v_status v = FAIL ->
     In (field v) ["amount"; "accountId"; "date"] /\
     exists raw, get firstItem (field v) = Normal (Some raw) /\ value v = Some raw).
Proof.
  unfold analyze. intros Ha.
  destruct (own_props firstItem) as [props | ] eqn:Hprops;
    cbn [cbind] in Ha; [ | discriminate ].
  remember (presence_checks props (map fst props) transactionFields) as vs eqn:Evs.
  destruct (describe_fields _ _ _ _) as [st | ]; cbn [cbind] in Ha; [ | discriminate ].
  destruct (amount_check _ _) as [am | ] eqn:Ham; cbn [cbind] in Ha; [ | discriminate ].
  destruct (accountId_check _ _) as [ac | ] eqn:Hac; cbn [cbind] in Ha; [ | discriminate ].
  destruct (date_check _ _) as [dc | ] eqn:Hdc; cbn [cbind] in Ha; [ | discriminate ].
  injection Ha as <-. unfold finish. cbn [validations].
  apply amount_check_judges in Ham. apply accountId_check_judges in Hac.
  apply date_check_judges in Hdc.
  assert (Hget : forall name, get firstItem name = Normal (lookup name props)).
  { intros name. unfold get. rewrite Hprops.
    destruct firstItem; try reflexivity. discriminate. }
  assert (Hvs : List.length vs = 6)
    by (rewrite Evs; unfold presence_checks; apply length_map).
  assert (Hfields : map field vs = transactionFields)
    by (rewrite Evs; apply presence_checks_fields).
  split; [ | split ].
  - rewrite !length_app, Hvs.
    pose proof (@judges_length _ _ _ Ham). pose proof (@judges_length _ _ _ Hac).
    pose proof (@judges_length _ _ _ Hdc). lia.
  - intros v Hv. rewrite !in_app_iff in Hv.
    destruct Hv as [Hv | [Hv | [Hv | Hv]]].
    + rewrite <- Hfields. apply in_map. exact Hv.
    + destruct (@judges_in _ _ _ _ Ham Hv) as [-> _]. unfold transactionFields. simpl. tauto.
    + destruct (@judges_in _ _ _ _ Hac Hv) as [-> _]. unfold transactionFields. simpl. tauto.
    + destruct (@judges_in _ _ _ _ Hdc Hv) as [-> _]. unfold transactionFields. simpl. tauto.
  - intros v Hv Hfail. rewrite !in_app_iff in Hv.
    destruct Hv as [Hv | [Hv | [Hv | Hv]]].
    + rewrite Evs in Hv. apply presence_checks_status in Hv.
      destruct (lookup (field v) props); rewrite Hv in Hfail; discriminate.
    + destruct (@judges_in _ _ _ _ Ham Hv) as [Hf Hraw].
      destruct (Hraw Hfail) as (raw & Hl & Hval).
      rewrite Hf. split; [ simpl; tauto | ]. exists raw. rewrite Hget. split; congruence.
    + destruct (@judges_in _ _ _ _ Hac Hv) as [Hf Hraw].
      destruct (Hraw Hfail) as (raw & Hl & Hval).
      rewrite Hf. split; [ simpl; tauto | ]. exists raw. rewrite Hget. split; congruence.
    + destruct (@judges_in _ _ _ _ Hdc Hv) as [Hf Hraw].
      destruct (Hraw Hfail) as (raw & Hl & Hval).
      rewrite Hf. split; [ simpl; tauto | ]. exists raw. rewrite Hget. split; congruence.
Qed.

End VerdictEdges.

Lemma only_validated_fields_can_fail_witness :
  exists a,
    ApiHelper.analyze Sample.runtime0
      (JArr [JObj [("id", JStr "14476"); ("amount", JStr "abc")]]) "unknown" = Normal a /\
    6 <= List.length (ApiHelper.validations a) <= 9.
Proof.
  eexists. split; [ reflexivity | ].
  refine (proj1 (@only_validated_fields_can_fail Sample.runtime0
                   (JObj [("id", JStr "14476"); ("amount", JStr "abc")]) []
                   "unknown" _ _)).
  reflexivity.
Defined.

Section AnalysisErrors.

Import ApiHelper.

Variable rt : runtime.

(** A value that cannot be converted to a string: an object with a key named
    [toString], or an array that holds such a value. *)
Fixpoint unprintable (v : json) : bool :=
  match v with
  | JArr items =>
      (fix any (l : list json) : bool :=
         match l with
         | [] => false
         | x :: rest => unprintable x || any rest
         end) items
  | JObj props => has_key "toString" props
  | _ => false
  end.

Lemma json_nested_ind (P : json -> Prop) :
  P JNull ->
  (forall b, P (JBool b)) ->
  (forall n, P (JNum n)) ->
  (forall s, P (JStr s)) ->
  (forall items, Forall P items -> P (JArr items)) ->
  (forall props, P (JObj props)) ->
  forall v, P v.
Proof.
  intros Hnull Hbool Hnum Hstr Harr Hobj.
  fix IH 1. intros v. destruct v as [ | b | n | s | items | props ].
  - exact Hnull.
  - apply Hbool.
  - apply Hnum.
  - apply Hstr.
  - apply Harr. induction items as [ | x rest IHrest ].
    + constructor.
    + constructor; [ apply IH | exact IHrest ].
  - apply Hobj.
Qed.

Lemma to_string_throws v :
  (exists e, to_string rt v = Throw e) <-> unprintable v = true.
Proof.
  induction v as [ | b | n | s | items IHitems | props ] using json_nested_ind.
  - simpl. split; [ intros [e H]; discriminate | discriminate ].
  - simpl. destruct b; split; try discriminate; intros [e H]; discriminate.
  - simpl. split; [ intros [e H]; discriminate | discriminate ].
  - simpl. split; [ intros [e H]; discriminate | discriminate ].
  - cbn [to_string unprintable].
    induction IHitems as [ | x rest IHx _ IHrest ].
    + split; [ intros [e H]; discriminate | discriminate ].
    + assert (Hx : (exists e, match x with JNull => Normal EmptyString
                                       | _ => to_string rt x end = Throw e)
                   <-> unprintable x = true).
      { destruct x; try exact IHx.
        simpl. split; [ intros [e H]; discriminate | discriminate ]. }
      rewrite orb_true_iff, <- Hx, <- IHrest.
      destruct rest as [ | y rest' ].
      * split; [ intros H; left; exact H | intros [H | [e H]]; [ exact H | discriminate ] ].
      * destruct (match x with JNull => Normal EmptyString | _ => to_string rt x end)
          as [sx | ex]; cbn [cbind].
        -- match goal with
           | |- context [ cbind ?j _ ] => destruct j as [sr | er] eqn:Ej
           end; cbn [cbind].
           ++ split; [ intros [e H]; discriminate | ].
              intros [[e H] | [e H]]; discriminate.
           ++ split; [ intros _; right; eauto | intros _; eauto ].
        -- split; [ intros _; left; eauto | intros _; eauto ].
  - simpl. destruct (has_key "toString" props); split; try discriminate; eauto.
    intros [e H]; discriminate.
Qed.

Lemma print_throws v :
  (exists e, print rt v = Throw e) <->
  (exists x, v = Some x /\ unprintable x = true).
Proof.
  destruct v as [x | ]; simpl.
  - rewrite to_string_throws. split; [ eauto | intros (y & [= <-] & H); exact H ].
  - split; [ intros [e H]; discriminate | intros (x & H & _); discriminate ].
Qed.

Lemma describe_fields_throws props fields st :
  (exists e, describe_fields rt props fields st = Throw e) <->
  (exists k x, In k fields /\ lookup k props = Some x /\ unprintable x = true).
Proof.
  revert st. induction fields as [ | f rest IH ]; intros st; simpl.
  - split; [ intros [e H]; discriminate | intros (k & x & [] & _) ].
  - destruct (print rt (lookup f props)) as [s | e] eqn:Hp; cbn [cbind].
    + rewrite IH. split.
      * intros (k & x & Hin & Hl & Hu). eauto 6.
      * intros (k & x & [Heq | Hin] & Hl & Hu); [ | eauto ].
        rewrite <- Heq in Hl.
        assert (Habs : exists e, print rt (lookup f props) = Throw e)
          by (apply print_throws; eauto).
        destruct Habs as [e He]. congruence.
    + split; [ | eauto ].
      intros _. assert (Hth : exists e', print rt (lookup f props) = Throw e') by eauto.
      apply print_throws in Hth. destruct Hth as (x & Hl & Hu). eauto 6.
Qed.

Lemma lookup_some_in {A} k (props : list (string * A)) x :
  lookup k props = Some x -> In k (map fst props).
Proof.
  induction props as [ | [k' v] rest IH ]; simpl; [ discriminate | ].
  destruct (String.eqb k k') eqn:E; [ | auto ].
  apply String.eqb_eq in E. auto.
Qed.

Lemma printable_is_parsed x :
  unprintable x = false ->
  (exists s, to_string rt x = Normal s) /\
  (exists f, parseFloat rt x = Normal f) /\
  (exists f, parseInt rt x = Normal f).
Proof.
  intros Hx. unfold parseFloat, parseInt.
  destruct (to_string rt x) as [s | e] eqn:E; cbn [cbind]; [ eauto 6 | ].
  assert (Hu : unprintable x = true) by (apply to_string_throws; eauto).
  congruence.
Qed.

Lemma describe_fields_returns props fields st :
  (forall k x, In k fields -> lookup k props = Some x -> unprintable x = false) ->
  exists st', describe_fields rt props fields st = Normal st'.
Proof.
  intros Hok. destruct (describe_fields rt props fields st) as [st' | e] eqn:E; [ eauto | ].
  assert (Hth : exists e, describe_fields rt props fields st = Throw e) by eauto.
  apply describe_fields_throws in Hth. destruct Hth as (k & x & Hin & Hl & Hu).
  rewrite (Hok k x Hin Hl) in Hu. discriminate.
Qed.

(** X5.  When the analysis throws.  For an array it throws exactly when the
    first element is [null] or holds, under one of its keys, a value that
    cannot be converted to a string; for an object, exactly when one of its
    own values cannot be converted.  Such a value is an object with a key
    named [toString], or an array that holds one.  Every other response is
    analysed to the end. *)
Theorem analysis_throws_on_null_item_or_unprintable_value :
  (forall firstItem rest endpoint,
     (exists e, analyze rt (JArr (firstItem :: rest)) endpoint = Throw e) <->
     (firstItem = JNull \/
      exists props k x,
        own_props firstItem = Normal props /\
        lookup k props = Some x /\ unprintable x = true)) /\
  (forall props endpoint,
     (exists e, analyze rt (JObj props) endpoint = Throw e) <->
     (exists k x, lookup k props = Some x /\ unprintable x = true)) /\
  (forall jsonData endpoint,
     match jsonData with
     | JArr (_ :: _) | JObj _ => True
     | _ => exists a, analyze rt jsonData endpoint = Normal a
     end).
Proof.
  split; [ | split ].
  - intros firstItem rest endpoint. unfold analyze.
    destruct (own_props firstItem) as [props | e0] eqn:Hprops; cbn [cbind].
    + assert (Hnn : firstItem <> JNull) by (intros ->; discriminate).
      destruct (describe_fields rt props (map fst props)
                  (assign "fields" (Fields (map fst props)) [])) as [st | e] eqn:Hd;
        cbn [cbind].
      * assert (Hok : forall k x, lookup k props = Some x -> unprintable x = false).
        { intros k x Hl. destruct (unprintable x) eqn:Hu; [ | reflexivity ].
          assert (Hth : exists e, describe_fields rt props (map fst props)
                          (assign "fields" (Fields (map fst props)) []) = Throw e).
          { apply describe_fields_throws. exists k, x.
            split; [ eapply lookup_some_in; eassumption | auto ]. }
          destruct Hth as [e He]. congruence. }
        assert (Ham : exists am, amount_check rt props = Normal am).
        { unfold amount_check. destruct (lookup "amount" props) as [raw | ] eqn:El;
            [ | eauto ].
          destruct (printable_is_parsed raw (Hok _ _ El)) as (_ & [f ->] & _).
          cbn [cbind]. destruct (negb (isNaN f)); eauto. }
        assert (Hac : exists ac, accountId_check rt props = Normal ac).
        { unfold accountId_check. destruct (lookup "accountId" props) as [raw | ] eqn:El;
            [ | eauto ].
          destruct (printable_is_parsed raw (Hok _ _ El)) as (_ & _ & [f ->]).
          cbn [cbind]. destruct (negb (isNaN f)); eauto. }
        assert (Hdc : exists dc, date_check rt props = Normal dc).
        { unfold date_check. destruct (lookup "date" props) as [raw | ] eqn:El;
            [ | eauto ].
          destruct (printable_is_parsed raw (Hok _ _ El)) as ([s ->] & _ & _).
          cbn [cbind]. destruct (negb (isNaN (Date_parse rt s))); eauto. }
        destruct Ham as [am ->], Hac as [ac ->], Hdc as [dc ->]. cbn [cbind].
        split; [ intros [e H]; discriminate | ].
        intros [Hn | (props' & k & x & [= <-] & Hl & Hu)]; [ contradiction | ].
        rewrite (Hok k x Hl) in Hu. discriminate.
      * split; [ | eauto ].
        intros _. right.
        assert (Hth : exists e, describe_fields rt props (map fst props)
                        (assign "fields" (Fields (map fst props)) []) = Throw e) by eauto.
        apply describe_fields_throws in Hth.
        destruct Hth as (k & x & _ & Hl & Hu). exists props, k, x. auto.
    + split; [ | eauto ].
      intros _. left. destruct firstItem; try discriminate. reflexivity.
  - intros props endpoint. unfold analyze.
    destruct (describe_fields rt props (map fst props)
                (assign "fields" (Fields (map fst props)) [])) as [st | e] eqn:Hd;
      cbn [cbind].
    + split; [ intros [e H]; discriminate | ].
      intros (k & x & Hl & Hu).
      assert (Hth : exists e, describe_fields rt props (map fst props)
                      (assign "fields" (Fields (map fst props)) []) = Throw e).
      { apply describe_fields_throws. exists k, x.
        split; [ eapply lookup_some_in; eassumption | auto ]. }
      destruct Hth as [e He]. congruence.
    + split; [ | eauto ].
      intros _.
      assert (Hth : exists e, describe_fields rt props (map fst props)
                      (assign "fields" (Fields (map fst props)) []) = Throw e) by eauto.
      apply describe_fields_throws in Hth.
      destruct Hth as (k & x & _ & Hl & Hu). eauto.
  - intros jsonData endpoint.
    destruct jsonData as [ | b | n | s | [ | x l ] | props ]; try exact I;
      simpl; eauto.
Qed.

End AnalysisErrors.

(* ===================================================================== *)
(** * Further properties of the endpoint prober                          *)
(* ===================================================================== *)

Section AmountFilter.

Import ApiHelper.

Variable rt : runtime.

(** The elements that the filter callback keeps. *)
Definition hit (amount : string) (transaction : json) : bool :=
  match amount_matches rt amount transaction with
  | Normal true => true
  | _ => false
  end.

(** [${x || 'N/A'}] inside the template literal of the log line. *)
Definition label (v : option json) : completion string :=
  match v with
  | Some x => if truthy x then to_string rt x else Normal "N/A"
  | None => Normal "N/A"
  end.

(** The callback of [matches.forEach((match, index) => console.log(...))]:
    the three conversions of its template literal, left to right. *)
Definition log_match (m : json) : completion unit :=
  cbind (get m "id") (fun id =>
  cbind (label id) (fun _ =>
  cbind (get m "amount") (fun amount =>
  cbind (print rt amount) (fun _ =>
  cbind (get m "date") (fun date =>
  cbind (label date) (fun _ => Normal tt)))))).

Fixpoint log_matches (l : list json) : completion unit :=
  match l with
  | [] => Normal tt
  | m :: rest => cbind (log_match m) (fun _ => log_matches rest)
  end.

(** The filtering step with the log lines it prints on the way. *)
Definition filter_and_log (amount : string) (jsonData : json) : completion json :=
  match jsonData with
  | JArr items =>
      cbind (filter_throwing (amount_matches rt amount) items) (fun matches =>
      match matches with
      | [] => Normal jsonData
      | _ => cbind (log_matches matches) (fun _ => Normal (JArr matches))
      end)
  | _ => Normal jsonData
  end.

Lemma filter_throwing_eq keep l kept :
  filter_throwing keep l = Normal kept ->
  (forall x, In x l -> exists b, keep x = Normal b) /\
  kept = filter (fun x => match keep x with Normal true => true | _ => false end) l.
Proof.
  revert kept. induction l as [ | x rest IH ]; intros kept; simpl.
  - intros [= <-]. split; [ intros x [] | reflexivity ].
  - destruct (keep x) as [k | e] eqn:Hk; cbn [cbind]; [ | discriminate ].
    destruct (filter_throwing keep rest) as [kept' | e] eqn:Hr; cbn [cbind];
      [ | discriminate ].
    destruct (IH kept' eq_refl) as [Hall Hkept].
    intros [= <-]. split.
    + intros y [<- | Hy]; [ eauto | auto ].
    + destruct k; rewrite Hkept; reflexivity.
Qed.

Definition starts_with_digit (a : string) : bool :=
  match a with
  | String c _ => is_digit c
  | EmptyString => false
  end.

Lemma is_digit_digit_char d : d < 10 -> is_digit (digit_char d) = true.
Proof.
  intros H. do 10 (destruct d as [ | d ]; [ reflexivity | ]). lia.
Qed.

Lemma decimal_digits_starts fuel n acc :
  starts_with_digit acc = true ->
  starts_with_digit (decimal_digits fuel n acc) = true.
Proof.
  revert n acc. induction fuel as [ | fuel IH ]; intros n acc Hacc; simpl.
  - exact Hacc.
  - assert (Hd : is_digit (digit_char (N.to_nat (n mod 10))) = true).
    { apply is_digit_digit_char.
      pose proof (N.mod_upper_bound n 10). lia. }
    destruct (n <? 10)%N; [ exact Hd | apply IH; exact Hd ].
Qed.

Lemma decimal_starts n : starts_with_digit (decimal n) = true.
Proof.
  unfold decimal. cbn [decimal_digits].
  assert (Hd : is_digit (digit_char (N.to_nat (n mod 10))) = true).
  { apply is_digit_digit_char. pose proof (N.mod_upper_bound n 10). lia. }
  destruct (n <? 10)%N; [ exact Hd | apply decimal_digits_starts; exact Hd ].
Qed.

Lemma not_an_index (name : string) i :
  starts_with_digit name = false -> String.eqb name (decimal_nat i) = false.
Proof.
  intros Hname. apply String.eqb_neq. intros ->.
  unfold decimal_nat in Hname. rewrite decimal_starts in Hname. discriminate.
Qed.

Lemma lookup_chars_from name i s :
  starts_with_digit name = false -> lookup name (chars_from i s) = None.
Proof.
  intros Hname. revert i. induction s as [ | c s IH ]; intros i; simpl.
  - reflexivity.
  - rewrite (@not_an_index name i Hname). apply IH.
Qed.

Lemma lookup_items_from name i l :
  starts_with_digit name = false -> lookup name (items_from i l) = None.
Proof.
  intros Hname. revert i. induction l as [ | x l IH ]; intros i; simpl.
  - reflexivity.
  - rewrite (@not_an_index name i Hname). apply IH.
Qed.

Lemma hit_is_an_object amount x :
  hit amount x = true ->
  exists props raw,
    x = JObj props /\ lookup "amount" props = Some raw /\ truthy raw = true.
Proof.
  unfold hit, amount_matches, get.
  destruct x as [ | b | n | s | items | props ].
  - discriminate.
  - discriminate.
  - discriminate.
  - cbn [own_props cbind]. rewrite lookup_chars_from by reflexivity. discriminate.
  - cbn [own_props cbind]. rewrite lookup_items_from by reflexivity. discriminate.
  - cbn [own_props cbind].
    destruct (lookup "amount" props) as [raw | ] eqn:Hl; [ | discriminate ].
    destruct (truthy raw) eqn:Ht; [ | discriminate ].
    intros _. exists props, raw. auto.
Qed.

(** X6.  What the amount filter hands back.  A body that is not an array comes
    back as it is.  For an array, every element is looked at (so none of them
    is [null]); when some elements match, the result is the array of exactly
    those, in the order of the body, each one an object with a truthy
    [amount]; when none matches, the result is the whole body, not an empty
    array. *)
Theorem filter_returns_the_matches_or_the_whole_body amount jsonData d :
  filter_and_log amount jsonData = Normal d ->
  filter_by_amount rt amount jsonData = Normal d /\
  match jsonData with
  | JArr items =>
      ~ In JNull items /\
      (forall x, In x (filter (hit amount) items) ->
         exists props raw,
           x = JObj props /\ lookup "amount" props = Some raw /\ truthy raw = true) /\
      d = match filter (hit amount) items with
          | [] => jsonData
          | hits => JArr hits
          end
  | _ => d = jsonData
  end.
Proof.
  unfold filter_and_log, filter_by_amount.
  destruct jsonData as [ | b | n | s | items | props ];
    try (intros [= <-]; split; reflexivity).
  destruct (filter_throwing (amount_matches rt amount) items) as [matches | e] eqn:Hf;
    cbn [cbind]; [ | discriminate ].
  destruct (filter_throwing_eq _ _ Hf) as [Hall Hm].
  fold (hit amount) in Hm.
  intros Hd.
  assert (Hd' : d = match matches with [] => JArr items | _ => JArr matches end).
  { destruct matches as [ | m rest ]; [ congruence | ].
    destruct (log_matches (m :: rest)); cbn [cbind] in Hd; congruence. }
  split; [ destruct matches; congruence | ].
  split; [ | split ].
  - intros Hnull. destruct (Hall _ Hnull) as [b Hb]. discriminate.
  - intros x Hx. apply filter_In in Hx. destruct Hx as [_ Hx].
    eapply hit_is_an_object; eassumption.
  - rewrite <- Hm. rewrite Hd'. destruct matches; reflexivity.
Qed.

Lemma label_throws v :
  (exists e, label v = Throw e) <-> (exists x, v = Some x /\ unprintable x = true).
Proof.
  destruct v as [x | ]; simpl.
  - destruct (truthy x) eqn:Ht.
    + rewrite to_string_throws.
      split; [ eauto | intros (y & [= <-] & H); exact H ].
    + split; [ intros [e H]; discriminate | ].
      intros (y & Heq & H). injection Heq as Heq. subst y.
      destruct x; simpl in *; discriminate.
  - split; [ intros [e H]; discriminate | intros (x & H & _); discriminate ].
Qed.

Lemma log_matches_throws l :
  (exists e, log_matches l = Throw e) <->
  (exists m, In m l /\ exists e, log_match m = Throw e).
Proof.
  induction l as [ | m rest IH ]; simpl.
  - split; [ intros [e H]; discriminate | intros (m & [] & _) ].
  - destruct (log_match m) as [ [] | e ] eqn:Hm; cbn [cbind].
    + rewrite IH. split.
      * intros (x & Hx & He). eauto.
      * intros (x & [<- | Hx] & [e He]); [ congruence | eauto ].
    + split; eauto.
Qed.

Lemma log_match_throws amount m :
  hit amount m = true ->
  (exists e, log_match m = Throw e) <->
  (exists k v, (k = "id" \/ k = "date") /\
               get m k = Normal (Some v) /\ unprintable v = true).
Proof.
  intros Hhit.
  destruct (hit_is_an_object _ _ Hhit) as (props & raw & -> & Hl & Ht).
  assert (Hraw : exists s, to_string rt raw = Normal s).
  { unfold hit, amount_matches, get in Hhit. cbn [own_props cbind] in Hhit.
    rewrite Hl, Ht in Hhit. unfold parseFloat in Hhit.
    destruct (to_string rt raw) as [s | e]; [ eauto | discriminate ]. }
  destruct Hraw as [sraw Hraw].
  unfold log_match, get. cbn [own_props cbind]. rewrite Hl. cbn [print]. rewrite Hraw.
  cbn [cbind].
  destruct (label (lookup "id" props)) as [sid | e] eqn:Hid; cbn [cbind].
  - destruct (label (lookup "date" props)) as [sd | e] eqn:Hdate; cbn [cbind].
    + split; [ intros [e H]; discriminate | ].
      intros (k & v & [-> | ->] & [= Hk] & Hu).
      * assert (Hth : exists e, label (lookup "id" props) = Throw e)
          by (apply label_throws; eauto).
        destruct Hth as [e He]. congruence.
      * assert (Hth : exists e, label (lookup "date" props) = Throw e)
          by (apply label_throws; eauto).
        destruct Hth as [e He]. congruence.
    + split; [ | eauto ]. intros _.
      assert (Hth : exists e, label (lookup "date" props) = Throw e) by eauto.
      apply label_throws in Hth. destruct Hth as (v & Hv & Hu).
      exists "date", v. rewrite Hv. auto.
  - split; [ | eauto ]. intros _.
    assert (Hth : exists e, label (lookup "id" props) = Throw e) by eauto.
    apply label_throws in Hth. destruct Hth as (v & Hv & Hu).
    exists "id", v. rewrite Hv. auto.
Qed.

(** X7.  The log lines of the matches can fail where the filter did not.  When
    the filter itself succeeds, the step throws exactly when one of the
    matching transactions has an [id] or a [date] that cannot be converted to
    a string (an object with a key named [toString], or an array holding one);
    otherwise it hands back what the filter found. *)
Theorem match_log_fails_on_unprintable_id_or_date amount jsonData d :
  filter_by_amount rt amount jsonData = Normal d ->
  ((exists e, filter_and_log amount jsonData = Throw e) <->
   (exists items m k v,
      jsonData = JArr items /\ In m (filter (hit amount) items) /\
      (k = "id" \/ k = "date") /\
      get m k = Normal (Some v) /\ unprintable v = true)) /\
  ((forall e, filter_and_log amount jsonData <> Throw e) ->
   filter_and_log amount jsonData = Normal d).
Proof.
  unfold filter_and_log, filter_by_amount.
  destruct jsonData as [ | b | n | s | items | props ].
  - intros Hd. split; [ | intros _; exact Hd ].
    split; [ intros [e H]; discriminate
           | intros (items & m & k & v & H & _); discriminate ].
  - intros Hd. split; [ | intros _; exact Hd ].
    split; [ intros [e H]; discriminate
           | intros (items & m & k & v & H & _); discriminate ].
  - intros Hd. split; [ | intros _; exact Hd ].
    split; [ intros [e H]; discriminate
           | intros (items & m & k & v & H & _); discriminate ].
  - intros Hd. split; [ | intros _; exact Hd ].
    split; [ intros [e H]; discriminate
           | intros (items & m & k & v & H & _); discriminate ].
  - destruct (filter_throwing (amount_matches rt amount) items) as [matches | e] eqn:Hf;
      cbn [cbind]; [ | discriminate ].
    destruct (filter_throwing_eq _ _ Hf) as [Hall Hm].
    fold (hit amount) in Hm. intros Hd.
    destruct matches as [ | m0 rest ].
    + split; [ | intros _; exact Hd ].
      split; [ intros [e H]; discriminate | ].
      intros (items' & m & k & v & [= <-] & Hin & _).
      rewrite <- Hm in Hin. destruct Hin.
    + injection Hd as <-.
      destruct (log_matches (m0 :: rest)) as [ [] | e ] eqn:Hlog; cbn [cbind].
      * split; [ | reflexivity ].
        split; [ intros [e H]; discriminate | ].
        intros (items' & m & k & v & [= <-] & Hin & Hk & Hg & Hu).
        assert (Hth : exists e, log_matches (m0 :: rest) = Throw e).
        { apply log_matches_throws. exists m. rewrite Hm. split; [ exact Hin | ].
          apply filter_In in Hin. destruct Hin as [_ Hhit].
          apply (@log_match_throws amount m Hhit). eauto. }
        destruct Hth as [e He]. congruence.
      * split; [ | intros Hno; destruct (Hno e eq_refl) ].
        split; [ | eauto ]. intros _.
        assert (Hth : exists e, log_matches (m0 :: rest) = Throw e) by eauto.
        apply log_matches_throws in Hth. destruct Hth as (m & Hin & Hth).
        rewrite Hm in Hin. pose proof Hin as Hin'.
        apply filter_In in Hin'. destruct Hin' as [_ Hhit].
        apply (@log_match_throws amount m Hhit) in Hth.
        destruct Hth as (k & v & Hk & Hg & Hu).
        exists items, m, k, v. auto.
  - intros Hd. split; [ | intros _; exact Hd ].
    split; [ intros [e H]; discriminate
           | intros (items & m & k & v & H & _); discriminate ].
Qed.

End AmountFilter.

Lemma filter_returns_the_matches_or_the_whole_body_witness :
  filter_and_log Sample.runtime0 "35.68" Sample.one_transaction
    = Normal Sample.one_transaction /\
  ApiHelper.filter_by_amount Sample.runtime0 "35.68" Sample.one_transaction
    = Normal Sample.one_transaction.
Proof.
  split; [ lazy; reflexivity | ].
  refine (proj1 (@filter_returns_the_matches_or_the_whole_body Sample.runtime0
                   "35.68" Sample.one_transaction Sample.one_transaction _)).
  lazy. reflexivity.
Defined.

(** A match whose [id] is an object with a key named [toString]. *)
Definition unprintable_match : json :=
  JObj [("id", JObj [("toString", JStr "x")]); ("amount", JStr "35.68")].

Lemma match_log_fails_on_unprintable_id_or_date_witness :
  ApiHelper.filter_by_amount Sample.runtime0 "35.68"
    (JArr [Sample.one_transaction; unprintable_match])
    = Normal (JArr [unprintable_match]) /\
  exists e,
    filter_and_log Sample.runtime0 "35.68"
      (JArr [Sample.one_transaction; unprintable_match]) = Throw e.
Proof.
  split; [ lazy; reflexivity | ].
  refine (proj2 (proj1 (@match_log_fails_on_unprintable_id_or_date Sample.runtime0
                          "35.68" (JArr [Sample.one_transaction; unprintable_match])
                          (JArr [unprintable_match]) _)) _).
  - lazy. reflexivity.
  - exists [Sample.one_transaction; unprintable_match], unprintable_match,
      "id", (JObj [("toString", JStr "x")]).
    split; [ reflexivity | ].
    split; [ lazy; left; reflexivity | ].
    split; [ left; reflexivity | ].
    split; reflexivity.
Defined.

Section QueryEdges.

Import ApiHelper.

Variable rt : runtime.
Variable w : world.

Lemma filter_throws_on_null amount items :
  In JNull items -> exists e, filter_by_amount rt amount (JArr items) = Throw e.
Proof.
  intros Hnull. unfold filter_by_amount.
  destruct (filter_throwing (amount_matches rt amount) items) as [matches | e] eqn:Hf;
    cbn [cbind]; [ | eauto ].
  destruct (filter_throwing_eq _ _ Hf) as [Hall _].
  destruct (Hall _ Hnull) as [b Hb]. discriminate.
Qed.

(** X8.  A captured call whose answer is an array that holds [null], at any
    position, is replayed in vain: the request is issued, the body is parsed,
    and the candidate is passed over, because the amount filter reads
    [transaction.amount] of every element. *)
Theorem array_with_null_is_passed_over amount c s response items :
  served w (history s) c = Normal response ->
  resp_json response = Normal (JArr items) ->
  In JNull items ->
  try_captured_endpoint rt w amount c s = (Normal None, add_history s (candidate c)) /\
  candidate c <> [].
Proof.
  intros Hserved Hjson Hnull. rewrite try_captured_endpoint_eq. split.
  - f_equal. f_equal. unfold captured_outcome. rewrite Hserved.
    destruct (resp_status response =? 200)%Z; [ | reflexivity ].
    rewrite Hjson.
    destruct (analyze rt (JArr items) (endpoint c)); [ | reflexivity ].
    destruct (@filter_throws_on_null amount items Hnull) as [e ->]. reflexivity.
  - unfold served in Hserved. unfold candidate.
    destruct (String.eqb (method c) "GET"); [ discriminate | ].
    destruct (String.eqb (method c) "POST"); discriminate.
Qed.

(** ** The loop of [getAccountDetails] and [getTransactions] *)

(** What one iteration returns, if it returns. *)
Definition page_outcome (past : list action) (endpoint : string) : option result :=
  match http_get w past endpoint with
  | Normal response =>
      if (resp_status response =? 200)%Z then
        match
          cbind (resp_json response) (fun jsonData =>
          cbind (analyze rt jsonData endpoint) (fun a => Normal (jsonData, a)))
        with
        | Normal (jsonData, a) =>
            Some {| res_status := resp_status response;
                    res_data := jsonData;
                    res_headers := None;
                    res_endpoint := endpoint;
                    res_analysis := a;
                    originalData := None |}
        | Throw _ =>
            match resp_text response with
            | Normal textContent =>
                Some {| res_status := resp_status response;
                        res_data := JObj [("html", JStr textContent)];
                        res_headers := None;
                        res_endpoint := endpoint;
                        res_analysis := page_analysis;
                        originalData := None |}
            | Throw _ => None
            end
        end
      else None
  | Throw _ => None
  end.

Lemma try_endpoint_eq endpoint s :
  try_endpoint rt w endpoint s =
  (Normal (page_outcome (history s) endpoint), add_history s [Get endpoint]).
Proof.
  unfold try_endpoint, page_outcome, get_request, call,
    analyzeJsonResponse, Effect.try_catch, Effect.bind, Effect.lift, Effect.ret.
  destruct (http_get w (history s) endpoint) as [response | e]; [ | reflexivity ].
  destruct (resp_status response =? 200)%Z; [ | reflexivity ].
  destruct (resp_json response) as [jsonData | e]; simpl;
    [ | destruct (resp_text response); reflexivity ].
  destruct (analyze rt jsonData endpoint) as [a | e]; simpl;
    [ reflexivity | destruct (resp_text response); reflexivity ].
Qed.

(** The loop as a function of the calls made before it: what it returns and
    the paths it requests. *)
Fixpoint run_endpoints (past : list action) (l : list string)
    : option result * list string :=
  match l with
  | [] => (None, [])
  | endpoint :: rest =>
      match page_outcome past endpoint with
      | Some found => (Some found, [endpoint])
      | None =>
          let '(r, issued) := run_endpoints (past ++ [Get endpoint]) rest in
          (r, endpoint :: issued)
      end
  end.

Lemma try_endpoints_eq l s :
  try_endpoints rt w l s =
  (Normal (fst (run_endpoints (history s) l)),
   add_history s (map Get (snd (run_endpoints (history s) l)))).
Proof.
  revert s. induction l as [ | e rest IH ]; intros s; simpl.
  - rewrite add_history_nil. reflexivity.
  - unfold Effect.bind. rewrite try_endpoint_eq.
    destruct (page_outcome (history s) e) as [found | ]; [ reflexivity | ].
    rewrite IH. simpl.
    destruct (run_endpoints (history s ++ [Get e]) rest) as [r issued].
    simpl. rewrite add_history_app. reflexivity.
Qed.

Lemma page_outcome_found past endpoint found :
  page_outcome past endpoint = Some found ->
  res_status found = 200%Z /\ res_endpoint found = endpoint /\
  res_headers found = None /\
  exists response,
    http_get w past endpoint = Normal response /\
    ((exists s, resp_text response = Normal s /\
                res_data found = JObj [("html", JStr s)] /\
                res_analysis found = page_analysis) \/
     (resp_json response = Normal (res_data found) /\
      analyze rt (res_data found) endpoint = Normal (res_analysis found))).
Proof.
  unfold page_outcome.
  destruct (http_get w past endpoint) as [response | ]; [ | discriminate ].
  destruct (resp_status response =? 200)%Z eqn:E; [ | discriminate ].
  apply Z.eqb_eq in E.
  destruct (resp_json response) as [j | ] eqn:Hj; cbn [cbind].
  - destruct (analyze rt j endpoint) as [a | ] eqn:Ha; cbn [cbind].
    + intros [= <-]. cbn. repeat split; auto. exists response. auto.
    + destruct (resp_text response) as [t | ] eqn:Ht; [ | discriminate ].
      intros [= <-]. cbn. repeat split; auto. exists response. split; [ reflexivity | ].
      left. eauto.
  - destruct (resp_text response) as [t | ] eqn:Ht; [ | discriminate ].
    intros [= <-]. cbn. repeat split; auto. exists response. split; [ reflexivity | ].
    left. eauto.
Qed.

(** No path of [l], requested one after the other from [past] on, is answered
    200 with a body that can be read. *)
Definition all_unreadable (past : list action) (l : list string) : Prop :=
  forall before e after,
    l = before ++ e :: after -> page_outcome (past ++ map Get before) e = None.

Lemma all_unreadable_nil past : all_unreadable past [].
Proof. intros before e after H. destruct before; discriminate. Qed.

Lemma all_unreadable_cons past e l :
  page_outcome past e = None ->
  all_unreadable (past ++ [Get e]) l ->
  all_unreadable past (e :: l).
Proof.
  intros He Hl before e' after H. destruct before as [ | b before ].
  - injection H as <- _. simpl. rewrite app_nil_r. exact He.
  - injection H as <- H.
    replace (past ++ map Get (e :: before))
      with ((past ++ [Get e]) ++ map Get before)
      by (rewrite <- app_assoc; reflexivity).
    eapply Hl. eassumption.
Qed.

(** The loop requests a prefix of its paths, one after the other; it returns
    at the first path that is answered 200 with a body it can read, and has
    requested all of them when it returns nothing. *)
Lemma run_endpoints_prefix l past :
  exists untried,
    l = snd (run_endpoints past l) ++ untried /\
    match fst (run_endpoints past l) with
    | None => untried = [] /\ all_unreadable past l
    | Some found =>
        exists earlier,
          snd (run_endpoints past l) = earlier ++ [res_endpoint found] /\
          page_outcome (past ++ map Get earlier) (res_endpoint found) = Some found /\
          all_unreadable past earlier
    end.
Proof.
  revert past. induction l as [ | e rest IH ]; intros past; simpl.
  - exists []. split; [ reflexivity | ]. split; [ reflexivity | apply all_unreadable_nil ].
  - destruct (page_outcome past e) as [found | ] eqn:E; simpl.
    + exists rest. split; [ reflexivity | ].
      destruct (page_outcome_found _ _ E) as (_ & Hend & _).
      exists []. rewrite Hend. simpl. rewrite app_nil_r.
      repeat split; auto using all_unreadable_nil.
    + destruct (IH (past ++ [Get e])) as (untried & H1 & H2).
      destruct (run_endpoints (past ++ [Get e]) rest) as [r issued].
      simpl in *. exists untried. split; [ congruence | ].
      destruct r as [found | ].
      * destruct H2 as (earlier & G1 & G2 & G3).
        exists (e :: earlier). rewrite G1.
        split; [ reflexivity | ]. split.
        -- replace (past ++ map Get (e :: earlier))
             with ((past ++ [Get e]) ++ map Get earlier)
             by (rewrite <- app_assoc; reflexivity).
           exact G2.
        -- apply all_unreadable_cons; assumption.
      * destruct H2 as [-> H2]. split; [ reflexivity | ].
        apply all_unreadable_cons; assumption.
Qed.

(** The shape that [getAccountDetails] and [getTransactions] share: the
    context, the loop over the paths, the answer when nothing was returned. *)
Definition lookup_pages (paths : list string) (nothing : result) : M result :=
  Effect.bind (ensure_context w) (fun _ =>
  Effect.bind (try_endpoints rt w paths) (fun r =>
  match r with
  | Some found => Effect.ret found
  | None => Effect.ret nothing
  end)).

Definition accountPaths (accountId : string) : list string :=
  [ "/services/bank/accounts/" ++ accountId;
    "/activity.htm?id=" ++ accountId;
    "/overview.htm" ]%string.

Definition no_account : result :=
  {| res_status := 404;
     res_data := JNull;
     res_headers := None;
     res_endpoint := "none";
     res_analysis := no_data "No account endpoints returned data";
     originalData := None |}.

Definition transactionPaths (accountId : string) : list string :=
  [ "/services/bank/accounts/" ++ accountId ++ "/transactions";
    "/activity.htm?id=" ++ accountId;
    "/findtrans.htm" ]%string.

Definition no_transactions : result :=
  {| res_status := 404;
     res_data := JArr [];
     res_headers := None;
     res_endpoint := "none";
     res_analysis := no_data "No transaction endpoints returned data";
     originalData := None |}.

Lemma getAccountDetails_eq accountId :
  getAccountDetails rt w accountId = lookup_pages (accountPaths accountId) no_account.
Proof. reflexivity. Qed.

Lemma getTransactions_eq accountId :
  getTransactions rt w accountId
  = lookup_pages (transactionPaths accountId) no_transactions.
Proof. reflexivity. Qed.

(** The result of the lookup on a helper whose context exists. *)
Definition pages_result (paths : list string) (nothing : result) (past : list action)
    : result :=
  match fst (run_endpoints past paths) with
  | Some found => found
  | None => nothing
  end.

Lemma lookup_pages_ready paths nothing s :
  requestContext s = true ->
  lookup_pages paths nothing s =
  (Normal (pages_result paths nothing (history s)),
   add_history s (map Get (snd (run_endpoints (history s) paths)))).
Proof.
  intros Hctx.
  unfold lookup_pages, pages_result, ensure_context, Effect.bind, Effect.read, Effect.ret.
  rewrite Hctx. rewrite try_endpoints_eq.
  destruct (fst (run_endpoints (history s) paths)); reflexivity.
Qed.

Lemma lookup_pages_first_use paths nothing s :
  requestContext s = false ->
  lookup_pages paths nothing s =
  match newContext w (history s) with
  | Normal _ => lookup_pages paths nothing (initialised s)
  | Throw e => (Throw e, add_history s [NewContext])
  end.
Proof.
  intros Hctx.
  unfold lookup_pages, ensure_context, init, call, Effect.bind,
    Effect.read, Effect.modify, Effect.ret.
  rewrite Hctx. simpl.
  destruct (newContext w (history s)); reflexivity.
Qed.

(** A query method fails only with the request context: it throws exactly the
    error of [newContext], and only when the helper had no context; a call
    that returns leaves the helper with a context and answers 200 or 404. *)
Definition fails_only_with_context (query : M result) : Prop :=
  forall s,
    match query s with
    | (Throw e, s') =>
        requestContext s = false /\ newContext w (history s) = Throw e /\
        s' = add_history s [NewContext]
    | (Normal found, s') =>
        (res_status found = 200%Z \/ res_status found = 404%Z) /\
        requestContext s' = true /\
        exists issued,
          Forall (fun a => is_request a = true) issued /\
          history s' =
            history s ++ (if requestContext s then [] else [NewContext]) ++ issued
    end.

Lemma run_endpoints_status paths past found :
  fst (run_endpoints past paths) = Some found -> res_status found = 200%Z.
Proof.
  intros H. destruct (run_endpoints_prefix paths past) as (untried & _ & H2).
  rewrite H in H2. destruct H2 as (earlier & _ & Hout & _).
  apply page_outcome_found in Hout. tauto.
Qed.

Lemma requests_Get l : Forall (fun a => is_request a = true) (map Get l).
Proof. induction l; constructor; auto. Qed.

Lemma lookup_pages_fails_only_with_context paths nothing :
  res_status nothing = 404%Z -> fails_only_with_context (lookup_pages paths nothing).
Proof.
  intros Hnothing.
  assert (Hready : forall s, requestContext s = true ->
    match lookup_pages paths nothing s with
    | (Throw e, s') => False
    | (Normal found, s') =>
        (res_status found = 200%Z \/ res_status found = 404%Z) /\
        requestContext s' = true /\
        exists issued,
          Forall (fun a => is_request a = true) issued /\
          history s' = history s ++ issued
    end).
  { intros s Hctx. rewrite (lookup_pages_ready paths nothing s Hctx).
    split; [ | split; [ exact Hctx | ] ].
    - unfold pages_result.
      destruct (fst (run_endpoints (history s) paths)) as [found | ] eqn:E;
        [ left; eapply run_endpoints_status; eassumption | right; exact Hnothing ].
    - eexists. split; [ apply requests_Get | reflexivity ]. }
  intros s. destruct (requestContext s) eqn:Hctx.
  - specialize (Hready s Hctx).
    destruct (lookup_pages paths nothing s) as [[found | e] s']; [ | contradiction ].
    exact Hready.
  - rewrite (lookup_pages_first_use paths nothing s Hctx).
    destruct (newContext w (history s)) as [ [] | e ] eqn:Hnew.
    + specialize (Hready (initialised s) eq_refl).
      destruct (lookup_pages paths nothing (initialised s)) as [[found | e] s'];
        [ | contradiction ].
      destruct Hready as (H1 & H2 & issued & H3 & H4).
      split; [ exact H1 | split; [ exact H2 | ] ].
      exists issued. split; [ exact H3 | ].
      rewrite H4. simpl. rewrite <- app_assoc. reflexivity.
    + auto.
Qed.

Lemma run_captured_requests amount l past :
  Forall (fun a => is_request a = true) (snd (run_captured rt w amount past l)).
Proof.
  assert (Hc : forall c, Forall (fun a => is_request a = true) (candidate c)).
  { intros c. unfold candidate.
    destruct (String.eqb (method c) "GET"); [ repeat constructor | ].
    destruct (String.eqb (method c) "POST"); repeat constructor. }
  revert past. induction l as [ | c rest IH ]; intros past; simpl.
  - constructor.
  - destruct (captured_outcome rt w amount past c); simpl; [ apply Hc | ].
    specialize (IH (past ++ candidate c)).
    destruct (run_captured rt w amount (past ++ candidate c) rest) as [r issued].
    simpl in *. apply Forall_app. auto.
Qed.

Lemma run_fallback_requests accountId amount l past :
  Forall (fun a => is_request a = true) (snd (run_fallback rt w accountId amount past l)).
Proof.
  revert past. induction l as [ | e rest IH ]; intros past; simpl.
  - constructor.
  - destruct (fallback_outcome rt w accountId amount past e); simpl;
      [ repeat constructor | ].
    specialize (IH (past ++ [Get e])).
    destruct (run_fallback rt w accountId amount (past ++ [Get e]) rest) as [r issued].
    simpl in *. constructor; auto.
Qed.

Lemma run_query_answer accountId amount past log :
  (res_status (fst (run_query rt w accountId amount past log)) = 200%Z \/
   res_status (fst (run_query rt w accountId amount past log)) = 404%Z) /\
  Forall (fun a => is_request a = true) (snd (run_query rt w accountId amount past log)).
Proof.
  unfold run_query.
  generalize (fallbackEndpoints accountId) as fallback. intros fallback.
  pose proof (run_captured_requests amount (filter (matches_topic accountId) log) past)
    as Hreq.
  destruct (run_captured_prefix rt w amount (filter (matches_topic accountId) log) past)
    as (u1 & _ & _ & H3).
  destruct (run_captured rt w amount past (filter (matches_topic accountId) log))
    as [r issued]. cbn [fst snd] in *.
  destruct r as [found | ].
  - cbn [fst snd]. split; [ left; apply H3; reflexivity | exact Hreq ].
  - pose proof (run_fallback_requests accountId amount fallback (past ++ issued))
      as Hreq'.
    destruct (run_fallback_prefix rt w accountId amount fallback (past ++ issued))
      as (u2 & _ & _ & G3).
    destruct (run_fallback rt w accountId amount (past ++ issued) fallback)
      as [r' issued']. cbn [fst snd] in *.
    destruct r' as [found | ]; cbn [fst snd].
    + split; [ left; apply G3; reflexivity | apply Forall_app; auto ].
    + split; [ right; reflexivity | apply Forall_app; auto ].
Qed.

(** X9.  The three query methods fail only with the request context.  Each of
    them throws exactly when the helper has no context yet and creating one
    fails, with that error and before any request; a call that returns answers
    status 200 or 404, leaves the helper with a context, and has made no call
    to the outside but its requests, preceded by the creation of the context
    when there was none.  So the context is created at most once. *)
Theorem queries_fail_only_with_the_context accountId amount :
  fails_only_with_context (findTransactionsByAmount rt w accountId amount) /\
  fails_only_with_context (getAccountDetails rt w accountId) /\
  fails_only_with_context (getTransactions rt w accountId).
Proof.
  split; [ | split ].
  - intros s. destruct (requestContext s) eqn:Hctx.
    + rewrite (findTransactionsByAmount_eq rt w accountId amount s Hctx).
      destruct (run_query_answer accountId amount (history s) (capturedEndpoints s))
        as [Hst Hreq].
      split; [ exact Hst | split; [ exact Hctx | ] ].
      eexists. split; [ exact Hreq | reflexivity ].
    + rewrite (findTransactionsByAmount_first_use rt w accountId amount s Hctx).
      destruct (newContext w (history s)) as [ [] | e ] eqn:Hnew; [ | auto ].
      rewrite (findTransactionsByAmount_eq rt w accountId amount (initialised s) eq_refl).
      destruct (run_query_answer accountId amount (history (initialised s))
                  (capturedEndpoints (initialised s))) as [Hst Hreq].
      split; [ exact Hst | split; [ reflexivity | ] ].
      eexists. split; [ exact Hreq | ].
      simpl. rewrite <- app_assoc. reflexivity.
  - rewrite getAccountDetails_eq.
    apply lookup_pages_fails_only_with_context. reflexivity.
  - rewrite getTransactions_eq.
    apply lookup_pages_fails_only_with_context. reflexivity.
Qed.

(** The calls made before the loop starts: those of [s], and the creation of
    the context when [s] has none. *)
Definition before_loop (s : state) : list action :=
  history s ++ (if requestContext s then [] else [NewContext]).

(** What a page lookup does when it returns. *)
Definition stops_at_first_readable (paths : list string) (nothing : result)
    (query : M result) : Prop :=
  forall s,
    match query s with
    | (Throw _, s') => history s' = before_loop s
    | (Normal found, s') =>
        exists issued untried,
          paths = issued ++ untried /\
          history s' = before_loop s ++ map Get issued /\
          ((found = nothing /\ untried = [] /\ all_unreadable (before_loop s) paths) \/
           (exists earlier,
              issued = earlier ++ [res_endpoint found] /\
              all_unreadable (before_loop s) earlier /\
              page_outcome (before_loop s ++ map Get earlier) (res_endpoint found)
                = Some found))
    end.

Lemma lookup_pages_stops paths nothing :
  stops_at_first_readable paths nothing (lookup_pages paths nothing).
Proof.
  assert (Hready : forall s, requestContext s = true ->
    exists issued untried,
      lookup_pages paths nothing s =
        (Normal (pages_result paths nothing (history s)),
         add_history s (map Get issued)) /\
      paths = issued ++ untried /\
      ((pages_result paths nothing (history s) = nothing /\ untried = [] /\
        all_unreadable (history s) paths) \/
       (exists earlier,
          issued = earlier ++ [res_endpoint (pages_result paths nothing (history s))] /\
          all_unreadable (history s) earlier /\
          page_outcome (history s ++ map Get earlier)
            (res_endpoint (pages_result paths nothing (history s)))
            = Some (pages_result paths nothing (history s))))).
  { intros s Hctx.
    destruct (run_endpoints_prefix paths (history s)) as (untried & H1 & H2).
    exists (snd (run_endpoints (history s) paths)), untried.
    split; [ apply lookup_pages_ready; exact Hctx | ].
    split; [ exact H1 | ].
    unfold pages_result.
    destruct (fst (run_endpoints (history s) paths)) as [found | ].
    - right. destruct H2 as (earlier & G1 & G2 & G3). exists earlier. auto.
    - left. destruct H2 as [G1 G2]. auto. }
  intros s. unfold before_loop. destruct (requestContext s) eqn:Hctx.
  - destruct (Hready s Hctx) as (issued & untried & -> & H1 & H2).
    exists issued, untried. rewrite app_nil_r. auto.
  - rewrite (lookup_pages_first_use paths nothing s Hctx).
    destruct (newContext w (history s)) as [ [] | e ]; [ | reflexivity ].
    destruct (Hready (initialised s) eq_refl) as (issued & untried & -> & H1 & H2).
    exists issued, untried. auto.
Qed.

(** X10.  [getAccountDetails] and [getTransactions] request their three paths
    in the order written, each after the one before it was found unreadable,
    and return at the first path answered 200 with a body that parses and is
    analysed, or else with a text that can be read; the result names that
    path, which is the last one requested.  When all three are unreadable the
    answer is the not-found result, whose data is [null] for the account and
    the empty array for the transactions. *)
Theorem page_lookups_stop_at_the_first_readable_page accountId :
  stops_at_first_readable (accountPaths accountId) no_account
    (getAccountDetails rt w accountId) /\
  stops_at_first_readable (transactionPaths accountId) no_transactions
    (getTransactions rt w accountId) /\
  res_data no_account = JNull /\ res_data no_transactions = JArr [] /\
  res_status no_account = 404%Z /\ res_status no_transactions = 404%Z.
Proof.
  rewrite getAccountDetails_eq, getTransactions_eq.
  repeat split; apply lookup_pages_stops.
Qed.

(** ** A page that is up is found *)

(** Whatever was done before, a GET of [path] is answered 200 with a text that
    can be read. *)
Definition always_readable (path : string) : Prop :=
  forall past, exists response text,
    http_get w past path = Normal response /\
    resp_status response = 200%Z /\
    resp_text response = Normal text.

Lemma readable_page_outcome path past :
  always_readable path -> page_outcome past path <> None.
Proof.
  intros Hr. destruct (Hr past) as (response & text & Hget & Hst & Htext).
  unfold page_outcome. rewrite Hget, Hst, Htext. cbn [Z.eqb Pos.eqb].
  destruct (cbind _ _) as [[j a] | ]; discriminate.
Qed.

Lemma readable_fallback_outcome accountId amount path past :
  always_readable path -> fallback_outcome rt w accountId amount past path <> None.
Proof.
  intros Hr. destruct (Hr past) as (response & text & Hget & Hst & Htext).
  unfold fallback_outcome. rewrite Hget, Hst, Htext. cbn [Z.eqb Pos.eqb].
  destruct (cbind _ _) as [[j a] | ]; discriminate.
Qed.

Lemma run_endpoints_readable path l past :
  always_readable path -> In path l -> fst (run_endpoints past l) <> None.
Proof.
  intros Hr Hin Hnone.
  destruct (run_endpoints_prefix l past) as (untried & _ & H2).
  rewrite Hnone in H2. destruct H2 as [_ Hall].
  apply in_split in Hin. destruct Hin as (before & after & Hl).
  apply (@readable_page_outcome path (past ++ map Get before) Hr).
  eapply Hall. eassumption.
Qed.

Lemma run_fallback_readable accountId amount path l past :
  always_readable path -> In path l ->
  fst (run_fallback rt w accountId amount past l) <> None.
Proof.
  intros Hr. revert past. induction l as [ | e rest IH ]; intros past Hin; simpl.
  - destruct Hin.
  - destruct (fallback_outcome rt w accountId amount past e) as [found | ] eqn:E;
      [ discriminate | ].
    destruct Hin as [-> | Hin].
    + exfalso. eapply readable_fallback_outcome; eassumption.
    + specialize (IH (past ++ [Get e]) Hin).
      destruct (run_fallback rt w accountId amount (past ++ [Get e]) rest) as [r issued].
      exact IH.
Qed.

(** The query never answers 404. *)
Definition always_finds (query : M result) : Prop :=
  forall s found, fst (query s) = Normal found -> res_status found = 200%Z.

Lemma lookup_pages_finds path paths nothing :
  always_readable path -> In path paths -> always_finds (lookup_pages paths nothing).
Proof.
  intros Hr Hin.
  assert (Hready : forall s found, requestContext s = true ->
            fst (lookup_pages paths nothing s) = Normal found ->
            res_status found = 200%Z).
  { intros s found Hctx. rewrite (lookup_pages_ready paths nothing s Hctx).
    unfold pages_result. cbn [fst].
    pose proof (@run_endpoints_readable path paths (history s) Hr Hin) as Hsome.
    destruct (fst (run_endpoints (history s) paths)) as [found' | ] eqn:E;
      [ | contradiction ].
    intros [= <-]. eapply run_endpoints_status; eassumption. }
  intros s found. destruct (requestContext s) eqn:Hctx; [ apply Hready; exact Hctx | ].
  rewrite (lookup_pages_first_use paths nothing s Hctx).
  destruct (newContext w (history s)) as [ [] | e ]; [ | discriminate ].
  apply Hready. reflexivity.
Qed.

Lemma run_query_finds path accountId amount past log :
  always_readable path -> In path (fallbackEndpoints accountId) ->
  res_status (fst (run_query rt w accountId amount past log)) = 200%Z.
Proof.
  intros Hr. unfold run_query.
  generalize (fallbackEndpoints accountId) as fallback. intros fallback Hin.
  destruct (run_captured_prefix rt w amount (filter (matches_topic accountId) log) past)
    as (u1 & _ & _ & H3).
  destruct (run_captured rt w amount past (filter (matches_topic accountId) log))
    as [r issued]. cbn [fst snd] in *.
  destruct r as [found | ]; [ apply H3; reflexivity | ].
  pose proof (@run_fallback_readable accountId amount path fallback (past ++ issued)
                Hr Hin) as Hsome.
  destruct (run_fallback_prefix rt w accountId amount fallback (past ++ issued))
    as (u2 & _ & _ & G3).
  destruct (run_fallback rt w accountId amount (past ++ issued) fallback)
    as [r' issued']. cbn [fst snd] in *.
  destruct r' as [found | ]; [ apply G3; reflexivity | contradiction ].
Qed.

(** X11.  A page that is up is found.  When one of the paths that a query
    method falls back on is always answered 200 with a text that can be read,
    the method never answers 404: whatever else fails, it returns a result
    with status 200.  For [findTransactionsByAmount] the paths are the five
    fallback paths, which include [/overview.htm] for every account. *)
Theorem readable_page_is_never_missed path accountId amount :
  always_readable path ->
  (In path (fallbackEndpoints accountId) ->
   always_finds (findTransactionsByAmount rt w accountId amount)) /\
  (In path (accountPaths accountId) ->
   always_finds (getAccountDetails rt w accountId)) /\
  (In path (transactionPaths accountId) ->
   always_finds (getTransactions rt w accountId)).
Proof.
  intros Hr. split; [ | split ].
  - intros Hin s found. destruct (requestContext s) eqn:Hctx.
    + rewrite (findTransactionsByAmount_eq rt w accountId amount s Hctx). cbn [fst].
      intros [= <-]. eapply run_query_finds; eassumption.
    + rewrite (findTransactionsByAmount_first_use rt w accountId amount s Hctx).
      destruct (newContext w (history s)) as [ [] | e ]; [ | discriminate ].
      rewrite (findTransactionsByAmount_eq rt w accountId amount (initialised s) eq_refl).
      cbn [fst]. intros [= <-]. eapply run_query_finds; eassumption.
  - intros Hin. rewrite getAccountDetails_eq. eapply lookup_pages_finds; eassumption.
  - intros Hin. rewrite getTransactions_eq. eapply lookup_pages_finds; eassumption.
Qed.

(** ** What a query reads of the capture log *)

(** Two logs that record the same calls: the same URLs and methods, in the
    same order, whatever bodies and times were stored with them. *)
Definition same_calls (log log' : list captured) : Prop :=
  map (fun c => (endpoint c, method c)) log = map (fun c => (endpoint c, method c)) log'.

Lemma captured_outcome_same amount past c c' :
  endpoint c = endpoint c' -> method c = method c' ->
  captured_outcome rt w amount past c = captured_outcome rt w amount past c' /\
  candidate c = candidate c'.
Proof.
  intros He Hm. unfold captured_outcome, served, candidate. rewrite He, Hm. auto.
Qed.

Lemma run_captured_same amount l l' past :
  same_calls l l' -> run_captured rt w amount past l = run_captured rt w amount past l'.
Proof.
  unfold same_calls. revert l' past.
  induction l as [ | c rest IH ]; intros [ | c' rest' ] past H; try discriminate.
  - reflexivity.
  - simpl in H. injection H as He Hm H.
    destruct (@captured_outcome_same amount past c c' He Hm) as [Ho Hc].
    simpl. rewrite Ho, Hc, (IH rest' _ H). reflexivity.
Qed.

Lemma filter_same accountId l l' :
  same_calls l l' ->
  same_calls (filter (matches_topic accountId) l) (filter (matches_topic accountId) l').
Proof.
  unfold same_calls. revert l'.
  induction l as [ | c rest IH ]; intros [ | c' rest' ] H; try discriminate.
  - reflexivity.
  - simpl in H. injection H as He Hm H.
    assert (Ht : matches_topic accountId c = matches_topic accountId c')
      by (unfold matches_topic; rewrite He; reflexivity).
    cbn [filter]. rewrite Ht.
    destruct (matches_topic accountId c'); cbn [map];
      [ rewrite He, Hm; f_equal | ]; apply IH; exact H.
Qed.

(** X12.  A query reads only the URLs and the methods of the capture log.  Two
    helpers that have recorded the same calls, with whatever response bodies
    and timestamps, and that agree on the context and on the calls made so
    far, answer [findTransactionsByAmount] with the same result or the same
    error, after the same requests: the stored bodies are never served, every
    candidate is requested again. *)
Theorem query_reads_only_urls_and_methods accountId amount s s' :
  same_calls (capturedEndpoints s) (capturedEndpoints s') ->
  requestContext s = requestContext s' ->
  history s = history s' ->
  fst (findTransactionsByAmount rt w accountId amount s)
    = fst (findTransactionsByAmount rt w accountId amount s') /\
  history (snd (findTransactionsByAmount rt w accountId amount s))
    = history (snd (findTransactionsByAmount rt w accountId amount s')).
Proof.
  intros Hlog Hctx Hpast.
  assert (Hready : forall s1 s2,
            same_calls (capturedEndpoints s1) (capturedEndpoints s2) ->
            requestContext s1 = true -> requestContext s2 = true ->
            history s1 = history s2 ->
            fst (findTransactionsByAmount rt w accountId amount s1)
              = fst (findTransactionsByAmount rt w accountId amount s2) /\
            history (snd (findTransactionsByAmount rt w accountId amount s1))
              = history (snd (findTransactionsByAmount rt w accountId amount s2))).
  { intros s1 s2 H1 H2 H3 H4.
    rewrite (findTransactionsByAmount_eq rt w accountId amount s1 H2).
    rewrite (findTransactionsByAmount_eq rt w accountId amount s2 H3).
    assert (Hq : run_query rt w accountId amount (history s1) (capturedEndpoints s1)
                 = run_query rt w accountId amount (history s2) (capturedEndpoints s2)).
    { unfold run_query.
      rewrite (@run_captured_same amount _ _ (history s1) (filter_same accountId H1)).
      rewrite H4. reflexivity. }
    rewrite Hq. cbn [fst snd add_history history]. rewrite H4. split; reflexivity. }
  destruct (requestContext s) eqn:Hs.
  - apply Hready; auto.
  - rewrite (findTransactionsByAmount_first_use rt w accountId amount s Hs).
    rewrite (findTransactionsByAmount_first_use rt w accountId amount s' (eq_sym Hctx)).
    rewrite <- Hpast.
    destruct (newContext w (history s)) as [ [] | e ].
    + apply Hready; simpl; auto. rewrite Hpast. reflexivity.
    + simpl. rewrite Hpast. auto.
Qed.

End QueryEdges.

(** A site that answers every request with status 200 and a JSON array whose
    second element is [null]. *)
Definition null_site : ApiHelper.world :=
  let answer :=
    {| ApiHelper.resp_status := 200;
       ApiHelper.resp_headers := [("content-type", "application/json")];
       ApiHelper.resp_json :=
         Normal (JArr [JObj [("amount", JStr "35.68")]; JNull]);
       ApiHelper.resp_text := Normal "[...]" |} in
  {| ApiHelper.newContext := fun _ => Normal tt;
     ApiHelper.http_get := fun _ _ => Normal answer;
     ApiHelper.http_post := fun _ _ => Normal answer;
     ApiHelper.Date_now := fun past => Z.of_nat (List.length past) |}.

Lemma array_with_null_is_passed_over_witness :
  let s := Sample.helper_with null_site [("/api/transactions", "GET")] in
  let c := {| ApiHelper.endpoint := "/api/transactions"; ApiHelper.method := "GET";
              ApiHelper.data := JNull; ApiHelper.timestamp := 1 |} in
  ApiHelper.try_captured_endpoint Sample.runtime0 null_site "35.68" c s
    = (Normal None, add_history s (candidate c)).
Proof.
  intros s c.
  refine (proj1 (@array_with_null_is_passed_over Sample.runtime0 null_site "35.68" c s
                   _ [JObj [("amount", JStr "35.68")]; JNull] _ _ _)).
  - reflexivity.
  - reflexivity.
  - right. left. reflexivity.
Defined.

Lemma readable_page_is_never_missed_witness :
  always_finds
    (ApiHelper.findTransactionsByAmount Sample.runtime0 Sample.html_site "13344" "35.68").
Proof.
  refine (proj1 (@readable_page_is_never_missed Sample.runtime0 Sample.html_site
                   "/overview.htm" "13344" "35.68" _) _).
  - intros past. eexists _, _. repeat split; reflexivity.
  - simpl. auto.
Defined.

Lemma query_reads_only_urls_and_methods_witness :
  let s := Sample.helper_with Sample.json_site [("/api/transactions", "GET")] in
  let s' :=
    {| ApiHelper.requestContext := ApiHelper.requestContext s;
       ApiHelper.capturedEndpoints :=
         [{| ApiHelper.endpoint := "/api/transactions"; ApiHelper.method := "GET";
             ApiHelper.data := JArr []; ApiHelper.timestamp := 99 |}];
       ApiHelper.jsonResponses := [];
       ApiHelper.history := ApiHelper.history s |} in
  fst (ApiHelper.findTransactionsByAmount Sample.runtime0 Sample.json_site
         "13344" "35.68" s)
  = fst (ApiHelper.findTransactionsByAmount Sample.runtime0 Sample.json_site
           "13344" "35.68" s').
Proof.
  intros s s'.
  refine (proj1 (@query_reads_only_urls_and_methods Sample.runtime0 Sample.json_site
                   "13344" "35.68" s s' _ _ _)).
  - reflexivity.
  - reflexivity.
  - reflexivity.
Defined.
